(** * meshmaker: command-line parsing and pipeline wiring

    A shallow embedding of [src/meshmaker.cpp]: the [args] record, the
    argument parser [parse_args] with its cursor loop, and the driver [main]
    that wires the VTK filters and calls the writer.

    Conventions.
    - [argv] is the list [argv[0]; ...; argv[argc-1]]; the C array has one
      more cell, [argv[argc]], which holds the null pointer.  Reading it as
      the value of an option is the [past_end] outcome below.
    - C [int] fields are [Z]; a condition [if (x)] is [truthy x].
    - [float] values are IEEE binary32 numbers in the representation of
      [SpecFloat]; comparisons are the IEEE ones ([SFleb]).
    - [std::stof] is a parameter of the development (its result depends on
      the C library's decimal-to-binary rounding); [std::stoi] is modelled
      in full after [strtol] in base 10.
    - [cerr] and [cout] are lists of lines, a line being the list of items
      inserted before [endl]. *)

From Stdlib Require Import ZArith String Ascii List Bool Lia.
From Stdlib Require Import Floats.SpecFloat.
Import ListNotations.

Local Open Scope string_scope.
Local Open Scope Z_scope.

(* ------------------------------------------------------------------ *)
(** ** Values, exceptions and streams *)

(** A C++ [float]. *)
Definition float : Type := spec_float.

Definition float_zero : float := S754_zero false.               (* 0 converted to float *)
Definition float_one : float := S754_finite false 8388608 (-23). (* 1 converted to float *)
Definition float_0_9 : float := S754_finite false 15099494 (-24). (* the literal 0.9 as a float *)

(** The exceptions thrown by the numeric conversions; [what] is [e.what()]. *)
Inductive exception : Type :=
| invalid_argument (msg : string)
| out_of_range (msg : string).

Definition what (e : exception) : string :=
  match e with invalid_argument m => m | out_of_range m => m end.

(** The result of a call that returns or throws. *)
Inductive conv (A : Type) : Type :=
| Conv (a : A)
| Throw (e : exception).
Arguments Conv {A} a.
Arguments Throw {A} e.

(** Items inserted in an output stream with [<<]. *)
Inductive item : Type :=
| str (s : string)
| flt (f : float)
| int (n : Z).

Definition line : Type := list item.

(** C truth of an [int]. *)
Definition truthy (x : Z) : bool := negb (x =? 0).

(* ------------------------------------------------------------------ *)
(** ** [std::stoi] *)

Definition INT_MIN : Z := - 2 ^ 31.
Definition INT_MAX : Z := 2 ^ 31 - 1.

(** [isspace] in the C locale: space, and the controls 9 to 13. *)
Definition isspace (c : Ascii.ascii) : bool :=
  let n := Z.of_nat (nat_of_ascii c) in (n =? 32) || ((9 <=? n) && (n <=? 13)).

Definition digit (c : Ascii.ascii) : option Z :=
  let n := Z.of_nat (nat_of_ascii c) in
  if (48 <=? n) && (n <=? 57) then Some (n - 48) else None.

Fixpoint skip_spaces (s : string) : string :=
  match s with
  | String c r => if isspace c then skip_spaces r else s
  | EmptyString => s
  end.

(** The value of the longest prefix of decimal digits. *)
Fixpoint digits (s : string) (acc : Z) : Z :=
  match s with
  | String c r =>
      match digit c with
      | Some d => digits r (10 * acc + d)
      | None => acc
      end
  | EmptyString => acc
  end.

Definition starts_with_digit (s : string) : bool :=
  match s with
  | String c _ => match digit c with Some _ => true | None => false end
  | EmptyString => false
  end.

(** [stoi(s)]: leading white space, an optional sign, then at least one
    digit; trailing characters are ignored.  No digit: [invalid_argument];
    a value that does not fit an [int]: [out_of_range]. *)
Definition stoi (s : string) : conv Z :=
  let s1 := skip_spaces s in
  let '(neg, s2) :=
    match s1 with
    | String "-"%char r => (true, r)
    | String "+"%char r => (false, r)
    | _ => (false, s1)
    end in
  if starts_with_digit s2 then
    let v := if neg : bool then - digits s2 0 else digits s2 0 in
    if (INT_MIN <=? v) && (v <=? INT_MAX) then Conv v
    else Throw (out_of_range "stoi")
  else Throw (invalid_argument "stoi").

(* ------------------------------------------------------------------ *)
(** ** [struct args] *)

Record args : Type := {
  clevel : float;
  out_fn : string;
  map_fn : string;
  out_format : string;
  decimate : Z;
  smooth : Z;
  smooth_iter : Z;
  target_reduction : float;
  ascii : Z;
  uint64 : Z;
  int32 : Z;
  verbose : Z;
  out_fn_full : string
}.

(** The default member initialisers. *)
Definition default_args : args := {|
  clevel := float_zero;
  out_fn := "out";
  map_fn := "";
  out_format := "vtp";
  decimate := 0;
  smooth := 0;
  smooth_iter := 20;
  target_reduction := float_0_9;
  ascii := 0;
  uint64 := 0;
  int32 := 0;
  verbose := 0;
  out_fn_full := ""
|}.

Definition set_clevel (v : float) (a : args) : args :=
  {| clevel := v; out_fn := out_fn a; map_fn := map_fn a;
     out_format := out_format a; decimate := decimate a; smooth := smooth a;
     smooth_iter := smooth_iter a; target_reduction := target_reduction a;
     ascii := ascii a; uint64 := uint64 a; int32 := int32 a;
     verbose := verbose a; out_fn_full := out_fn_full a |}.

Definition set_out_fn (v : string) (a : args) : args :=
  {| clevel := clevel a; out_fn := v; map_fn := map_fn a;
     out_format := out_format a; decimate := decimate a; smooth := smooth a;
     smooth_iter := smooth_iter a; target_reduction := target_reduction a;
     ascii := ascii a; uint64 := uint64 a; int32 := int32 a;
     verbose := verbose a; out_fn_full := out_fn_full a |}.

Definition set_map_fn (v : string) (a : args) : args :=
  {| clevel := clevel a; out_fn := out_fn a; map_fn := v;
     out_format := out_format a; decimate := decimate a; smooth := smooth a;
     smooth_iter := smooth_iter a; target_reduction := target_reduction a;
     ascii := ascii a; uint64 := uint64 a; int32 := int32 a;
     verbose := verbose a; out_fn_full := out_fn_full a |}.

Definition set_out_format (v : string) (a : args) : args :=
  {| clevel := clevel a; out_fn := out_fn a; map_fn := map_fn a;
     out_format := v; decimate := decimate a; smooth := smooth a;
     smooth_iter := smooth_iter a; target_reduction := target_reduction a;
     ascii := ascii a; uint64 := uint64 a; int32 := int32 a;
     verbose := verbose a; out_fn_full := out_fn_full a |}.

Definition set_decimate (v : Z) (a : args) : args :=
  {| clevel := clevel a; out_fn := out_fn a; map_fn := map_fn a;
     out_format := out_format a; decimate := v; smooth := smooth a;
     smooth_iter := smooth_iter a; target_reduction := target_reduction a;
     ascii := ascii a; uint64 := uint64 a; int32 := int32 a;
     verbose := verbose a; out_fn_full := out_fn_full a |}.

Definition set_smooth (v : Z) (a : args) : args :=
  {| clevel := clevel a; out_fn := out_fn a; map_fn := map_fn a;
     out_format := out_format a; decimate := decimate a; smooth := v;
     smooth_iter := smooth_iter a; target_reduction := target_reduction a;
     ascii := ascii a; uint64 := uint64 a; int32 := int32 a;
     verbose := verbose a; out_fn_full := out_fn_full a |}.

Definition set_smooth_iter (v : Z) (a : args) : args :=
  {| clevel := clevel a; out_fn := out_fn a; map_fn := map_fn a;
     out_format := out_format a; decimate := decimate a; smooth := smooth a;
     smooth_iter := v; target_reduction := target_reduction a;
     ascii := ascii a; uint64 := uint64 a; int32 := int32 a;
     verbose := verbose a; out_fn_full := out_fn_full a |}.

Definition set_target_reduction (v : float) (a : args) : args :=
  {| clevel := clevel a; out_fn := out_fn a; map_fn := map_fn a;
     out_format := out_format a; decimate := decimate a; smooth := smooth a;
     smooth_iter := smooth_iter a; target_reduction := v;
     ascii := ascii a; uint64 := uint64 a; int32 := int32 a;
     verbose := verbose a; out_fn_full := out_fn_full a |}.

Definition set_ascii (v : Z) (a : args) : args :=
  {| clevel := clevel a; out_fn := out_fn a; map_fn := map_fn a;
     out_format := out_format a; decimate := decimate a; smooth := smooth a;
     smooth_iter := smooth_iter a; target_reduction := target_reduction a;
     ascii := v; uint64 := uint64 a; int32 := int32 a;
     verbose := verbose a; out_fn_full := out_fn_full a |}.

Definition set_uint64 (v : Z) (a : args) : args :=
  {| clevel := clevel a; out_fn := out_fn a; map_fn := map_fn a;
     out_format := out_format a; decimate := decimate a; smooth := smooth a;
     smooth_iter := smooth_iter a; target_reduction := target_reduction a;
     ascii := ascii a; uint64 := v; int32 := int32 a;
     verbose := verbose a; out_fn_full := out_fn_full a |}.

Definition set_int32 (v : Z) (a : args) : args :=
  {| clevel := clevel a; out_fn := out_fn a; map_fn := map_fn a;
     out_format := out_format a; decimate := decimate a; smooth := smooth a;
     smooth_iter := smooth_iter a; target_reduction := target_reduction a;
     ascii := ascii a; uint64 := uint64 a; int32 := v;
     verbose := verbose a; out_fn_full := out_fn_full a |}.

Definition set_verbose (v : Z) (a : args) : args :=
  {| clevel := clevel a; out_fn := out_fn a; map_fn := map_fn a;
     out_format := out_format a; decimate := decimate a; smooth := smooth a;
     smooth_iter := smooth_iter a; target_reduction := target_reduction a;
     ascii := ascii a; uint64 := uint64 a; int32 := int32 a;
     verbose := v; out_fn_full := out_fn_full a |}.

Definition set_out_fn_full (v : string) (a : args) : args :=
  {| clevel := clevel a; out_fn := out_fn a; map_fn := map_fn a;
     out_format := out_format a; decimate := decimate a; smooth := smooth a;
     smooth_iter := smooth_iter a; target_reduction := target_reduction a;
     ascii := ascii a; uint64 := uint64 a; int32 := int32 a;
     verbose := verbose a; out_fn_full := v |}.

(* ------------------------------------------------------------------ *)
(** ** [print_usage] *)

Definition nl : string := String (ascii_of_nat 10) EmptyString.
Definition tab : string := String (ascii_of_nat 9) EmptyString.

Definition usage_string : string :=
  "usage: meshmaker [options] file.map" ++ nl ++
  nl ++
  "Generate a mesh from the MAP/MRC file using the specified options" ++ nl ++
  nl ++
  "Options:" ++ nl ++
  tab ++ "-c/--clevel <float>" ++ nl ++ tab ++ tab ++ tab ++
    "the contour level at which to build the surface [default: 0.0]" ++ nl ++
  tab ++ "-o/--output <str>" ++ nl ++ tab ++ tab ++ tab ++
    "the prefix of the output file to be combined with the extension (see below) [default: out]" ++ nl ++
  tab ++ "-S/--stl" ++ tab ++ "output in STL format" ++ nl ++
  tab ++ "-V/--vtk" ++ tab ++ "output in VTK format" ++ nl ++
  tab ++ "-X/--vtp" ++ tab ++ "output in VTP format [default]" ++ nl ++
  tab ++ "-D/--decimate" ++ tab ++
    "perform progressive decimation to eliminate superfluous polygons [default: false]" ++ nl ++
  tab ++ "-s/--smooth" ++ tab ++ "smooth the generated surface [default: false]" ++ nl ++
  tab ++ "-i/--smooth-iter <int>" ++ nl ++ tab ++ tab ++ tab ++
    "number of iterations for smoothing (only applies if -s/--smooth is specified[default: 20]" ++ nl ++
  tab ++ "-t/--target-reduction <float>" ++ nl ++ tab ++ tab ++ tab ++
    "set the target reduction in the number of polygon in interval (0, 1) [default: 0.9]" ++ nl ++
  tab ++ "-A/--ascii" ++ tab ++ "save data as ASCII as opposed to BINARY [default: false]" ++ nl ++
  tab ++ "-U/--uint64" ++ tab ++
    "save VTP headers using UInt64 as opposed to UInt32 [default: false]" ++ nl ++
  tab ++ "-I/--int32" ++ tab ++ "use Int32 for vtkIdType instead of Int64 [default: false]" ++ nl ++
  tab ++ "-h/--help" ++ tab ++ "show this help" ++ nl ++
  tab ++ "-v/--verbose" ++ tab ++ "verbose output" ++ nl.

(** [cerr << usage_string << endl]. *)
Definition print_usage (cerr : list line) : list line :=
  cerr ++ [[str usage_string]].

(* ------------------------------------------------------------------ *)
(** ** [parse_args] *)

(** The locals of [parse_args]: the record being filled, the cursor [i],
    the flag [_abort], and what has been written to [cerr]. *)
Record state : Type := {
  cargs : args;
  i : nat;
  _abort : Z;
  cerr : list line
}.

(** How a call of [parse_args] ends. *)
Inductive outcome : Type :=
| returned (a : args) (err : list line)      (* [return cargs] *)
| aborted (err : list line)                 (* [abort()] *)
| terminated (e : exception) (err : list line) (* an exception nobody catches: [std::terminate] *)
| past_end (err : list line).               (* [argv[argc]], the null pointer, used as a value: undefined *)

(** One iteration either goes on or leaves the function. *)
Inductive flow : Type :=
| Next (s : state)
| Halt (o : outcome).

Definition assign (f : args -> args) (s : state) : state :=
  {| cargs := f (cargs s); i := i s; _abort := _abort s; cerr := cerr s |}.

Definition advance (n : nat) (s : state) : state :=
  {| cargs := cargs s; i := (i s + n)%nat; _abort := _abort s; cerr := cerr s |}.

Definition report (l : line) (s : state) : state :=
  {| cargs := cargs s; i := i s; _abort := _abort s; cerr := cerr s ++ [l] |}.

Definition flag_abort (s : state) : state :=
  {| cargs := cargs s; i := i s; _abort := 1; cerr := cerr s |}.

(** [strcmp(tok, short) == 0 || strcmp(tok, long) == 0]. *)
Definition opt (tok short long : string) : bool :=
  String.eqb tok short || String.eqb tok long.

Definition exception_caught (e : exception) : line :=
  [str "exception caught: "; str (what e)].

Definition target_out_of_range (t : float) : line :=
  [str "Target reduction out of range (0, 1): "; flt t].

Definition map_not_specified : line :=
  [str "Input MAP/MRC file not specified. Aborting..."].

Definition uint64_warning (fmt : string) : line :=
  [str "Warning: header set to UInt64 with non-vtp output format ("; str fmt; str ")"].

Definition initial : state :=
  {| cargs := default_args; i := 1; _abort := 0; cerr := [] |}.

Section Parser.

(** [std::stof]. *)
Variable stof : string -> conv float.

(** The body of the [while] loop, with [tok] = [argv[i]]. *)
Definition body (argv : list string) (tok : string) (s : state) : flow :=
  if opt tok "-c" "--clevel" then
    match nth_error argv (i s + 1) with
    | Some v =>
        match stof v with
        | Conv x => Next (advance 2 (assign (set_clevel x) s))
        | Throw e => Next (advance 2 (flag_abort (report (exception_caught e) s)))
        end
    | None => Halt (past_end (cerr s))
    end
  else if opt tok "-o" "--output" then
    match nth_error argv (i s + 1) with
    | Some v => Next (advance 2 (assign (set_out_fn v) s))
    | None => Halt (past_end (cerr s))
    end
  else if opt tok "-S" "--stl" then Next (advance 1 (assign (set_out_format "stl") s))
  else if opt tok "-V" "--vtk" then Next (advance 1 (assign (set_out_format "vtk") s))
  else if opt tok "-X" "--vtp" then Next (advance 1 (assign (set_out_format "vtp") s))
  else if opt tok "-D" "--decimate" then Next (advance 1 (assign (set_decimate 1) s))
  else if opt tok "-s" "--smooth" then Next (advance 1 (assign (set_smooth 1) s))
  else if opt tok "-i" "--smooth-iter" then
    match nth_error argv (i s + 1) with
    | Some v =>
        match stoi v with
        | Conv n => Next (advance 1 (assign (set_smooth_iter n) s))
        | Throw e => Halt (terminated e (cerr s))
        end
    | None => Halt (past_end (cerr s))
    end
  else if opt tok "-t" "--target-reduction" then
    match nth_error argv (i s + 1) with
    | Some v =>
        let s1 :=
          match stof v with
          | Conv x => assign (set_target_reduction x) s
          | Throw e => flag_abort (report (exception_caught e) s)
          end in
        let t := target_reduction (cargs s1) in
        let s2 :=
          if SFleb t float_zero || SFleb float_one t
          then flag_abort (report (target_out_of_range t) s1)
          else s1 in
        Next (advance 2 s2)
    | None => Halt (past_end (cerr s))
    end
  else if opt tok "-A" "--ascii" then Next (advance 1 (assign (set_ascii 1) s))
  else if opt tok "-U" "--uint64" then Next (advance 1 (assign (set_uint64 1) s))
  else if opt tok "-I" "--int32" then Next (advance 1 (assign (set_int32 1) s))
  else if opt tok "-v" "--verbose" then Next (advance 1 (assign (set_verbose 1) s))
  else if opt tok "-h" "--help" then Halt (aborted (print_usage (cerr s)))
  else (* the [try] around this assignment has nothing to catch *)
    Next (advance 1 (assign (set_map_fn tok) s)).

(** [while (i < argc) { ... }].  [nth_error argv (i s)] is [None] exactly
    when [i >= argc].  Every iteration moves the cursor forward, so
    [length argv] iterations are enough ([while_exits] below). *)
Fixpoint while (fuel : nat) (argv : list string) (s : state) : flow :=
  match fuel with
  | O => Next s
  | S fuel' =>
      match nth_error argv (i s) with
      | None => Next s
      | Some tok =>
          match body argv tok s with
          | Next s' => while fuel' argv s'
          | Halt o => Halt o
          end
      end
  end.

(** The statements after the loop. *)
Definition finish (s : state) : outcome :=
  let s1 :=
    assign (fun a => set_out_fn_full (out_fn a ++ "." ++ out_format a) a) s in
  let s2 :=
    if String.eqb (map_fn (cargs s1)) ""
    then flag_abort (report map_not_specified s1)
    else s1 in
  let s3 :=
    if (uint64 (cargs s2) =? 1) && negb (String.eqb (out_format (cargs s2)) "vtp")
    then report (uint64_warning (out_format (cargs s2))) s2
    else s2 in
  if truthy (_abort s3) then aborted (cerr s3) else returned (cargs s3) (cerr s3).

Definition parse_args (argv : list string) : outcome :=
  match while (length argv) argv initial with
  | Next s => finish s
  | Halt o => o
  end.

End Parser.

Definition stderr (o : outcome) : list line :=
  match o with
  | returned _ e => e
  | aborted e => e
  | terminated _ e => e
  | past_end e => e
  end.

Definition is_returned (o : outcome) : bool :=
  match o with returned _ _ => true | _ => false end.

(* ------------------------------------------------------------------ *)
(** ** [main] *)

Inductive writer_class : Type :=
| vtkSTLWriter
| vtkPolyDataWriter
| vtkXMLPolyDataWriter.

(** The VTK objects [main] creates. *)
Inductive object : Type :=
| reader                       (* vtkMRCReader *)
| cfilt                        (* vtkContourFilter *)
| tfilt                        (* vtkTriangleFilter *)
| sfilt                        (* vtkSmoothPolyDataFilter *)
| dfilt                        (* vtkDecimatePro *)
| strip                        (* vtkStripper *)
| writer (c : writer_class).

(** The member functions [main] calls; [SetInputConnection src] stands for
    [SetInputConnection(src->GetOutputPort())]. *)
Inductive method : Type :=
| SetFileName (fn : string)
| SetInputConnection (src : object)
| SetValue (idx : Z) (v : float)
| SetNumberOfIterations (n : Z)
| SetTargetReduction (t : float)
| PreserveTopologyOn
| SetMaximumLength (n : Z)
| SetFileTypeToASCII
| SetFileTypeToBinary
| SetIdTypeToInt32
| SetIdTypeToInt64
| SetDataModeToAscii
| SetDataModeToBinary
| SetHeaderTypeToUInt64
| SetHeaderTypeToUInt32
| Write.

Definition call : Type := object * method.

(** What [main] has done so far: the lines on [cout] and the calls made. *)
Record world : Type := {
  cout : list line;
  calls : list call
}.

Definition M (A : Type) : Type := world -> A * world.

Definition ret {A : Type} (a : A) : M A := fun w => (a, w).

Definition bind {A B : Type} (m : M A) (k : A -> M B) : M B :=
  fun w => let '(a, w') := m w in k a w'.

Notation "m ;; k" := (bind m (fun _ => k)) (at level 61, right associativity).
Notation "x <- m ;; k" := (bind m (fun x => k))
  (at level 61, m at next level, right associativity).

Definition say (l : line) : M unit :=
  fun w => (tt, {| cout := cout w ++ [l]; calls := calls w |}).

Definition invoke (o : object) (m : method) : M unit :=
  fun w => (tt, {| cout := cout w; calls := calls w ++ [(o, m)] |}).

Definition when (b : bool) (m : M unit) : M unit :=
  if b then m else ret tt.

Definition EXIT_SUCCESS : Z := 0.

Section Driver.

(** The value [writer->Write()] returns: 1 when the file was written, 0
    when it could not be. *)
Variable write_result : Z.

Definition call_Write (o : object) : M Z :=
  invoke o Write ;; ret write_result.

Definition write_stl (a : args) : M Z :=
  let w := writer vtkSTLWriter in
  invoke w (SetInputConnection strip) ;;
  invoke w (SetFileName (out_fn_full a)) ;;
  (if truthy (ascii a) then invoke w SetFileTypeToASCII
   else invoke w SetFileTypeToBinary) ;;
  call_Write w.

Definition write_vtk (a : args) : M Z :=
  let w := writer vtkPolyDataWriter in
  invoke w (SetFileName (out_fn_full a)) ;;
  invoke w (SetInputConnection strip) ;;
  (if truthy (ascii a) then invoke w SetFileTypeToASCII
   else invoke w SetFileTypeToBinary) ;;
  call_Write w.

(** In the last [if], the [else] governs only the verbose message: the call
    of [SetHeaderTypeToUInt32] follows the whole conditional. *)
Definition write_vtp (a : args) : M Z :=
  let w := writer vtkXMLPolyDataWriter in
  invoke w (SetFileName (out_fn_full a)) ;;
  invoke w (SetInputConnection strip) ;;
  (if truthy (int32 a) then invoke w SetIdTypeToInt32
   else invoke w SetIdTypeToInt64) ;;
  (if truthy (ascii a) then invoke w SetDataModeToAscii
   else invoke w SetDataModeToBinary) ;;
  (if truthy (uint64 a) then
     when (truthy (verbose a)) (say [str "Using UInt64 headers..."]) ;;
     invoke w SetHeaderTypeToUInt64
   else
     when (truthy (verbose a)) (say [str "Using UInt32 headers..."])) ;;
  invoke w SetHeaderTypeToUInt32 ;;
  call_Write w.

(** [main] after [parse_args] has returned [a]; the result is the exit
    status. *)
Definition main (a : args) : M Z :=
  let v := truthy (verbose a) in
  when v (say [str "Reading MRC/MAP file..."; str (map_fn a)]) ;;
  invoke reader (SetFileName (map_fn a)) ;;
  when v (say [str "Running contour filter at level "; flt (clevel a); str "..."]) ;;
  invoke cfilt (SetInputConnection reader) ;;
  invoke cfilt (SetValue 0 (clevel a)) ;;
  when (truthy (decimate a) || truthy (smooth a))
    (when v (say [str "Running triangle filter..."]) ;;
     invoke tfilt (SetInputConnection cfilt) ;;
     when (truthy (smooth a))
       (when v (say [str "Running smoothing filter with "; int (smooth_iter a);
                     str " iterations..."]) ;;
        invoke sfilt (SetInputConnection tfilt) ;;
        invoke sfilt (SetNumberOfIterations (smooth_iter a))) ;;
     when (truthy (decimate a))
       (when v (say [str "Running progressive decimation filter with ";
                     flt (target_reduction a); str " target reduction..."]) ;;
        (if truthy (smooth a) then invoke dfilt (SetInputConnection sfilt)
         else invoke dfilt (SetInputConnection tfilt)) ;;
        invoke dfilt (SetTargetReduction (target_reduction a)) ;;
        invoke dfilt PreserveTopologyOn)) ;;
  when v (say [str "Generating triangle strips..."]) ;;
  (if truthy (decimate a) || truthy (smooth a) then
     if truthy (decimate a) then invoke strip (SetInputConnection dfilt)
     else invoke strip (SetInputConnection sfilt)
   else invoke strip (SetInputConnection cfilt)) ;;
  invoke strip (SetMaximumLength 1000) ;;
  when v (say [str "Writing output to '"; str (out_fn_full a); str "'..."]) ;;
  (if String.eqb (out_format a) "stl" then _ <- write_stl a ;; ret tt
   else if String.eqb (out_format a) "vtk" then _ <- write_vtk a ;; ret tt
   else if String.eqb (out_format a) "vtp" then _ <- write_vtp a ;; ret tt
   else ret tt) ;;
  ret EXIT_SUCCESS.

End Driver.

Definition empty_world : world := {| cout := []; calls := [] |}.

(** How the process ends. *)
Inductive termination : Type :=
| exited (status : Z)    (* [main] returned [status] *)
| sigabrt                (* [abort()], also through [std::terminate] *)
| undefined.             (* after [past_end] *)

Record run : Type := {
  ending : termination;
  run_cerr : list line;
  run_cout : list line;
  run_calls : list call
}.

(** The whole program: [stof] and [write_result] are the environment. *)
Definition meshmaker (stof : string -> conv float) (write_result : Z)
    (argv : list string) : run :=
  match parse_args stof argv with
  | returned a e =>
      let '(st, w) := main write_result a empty_world in
      {| ending := exited st; run_cerr := e; run_cout := cout w; run_calls := calls w |}
  | aborted e =>
      {| ending := sigabrt; run_cerr := e; run_cout := []; run_calls := [] |}
  | terminated _ e =>
      {| ending := sigabrt; run_cerr := e; run_cout := []; run_calls := [] |}
  | past_end e =>
      {| ending := undefined; run_cerr := e; run_cout := []; run_calls := [] |}
  end.

(** A non-zero status as the parent process sees it: a non-zero exit code,
    or death by SIGABRT. *)
Definition nonzero_status (t : termination) : Prop :=
  match t with
  | exited st => st <> 0
  | sigabrt => True
  | undefined => False
  end.

(** A fragment of [stof] for the examples: its values on five tokens
    (0, 1, 0.5 and 5 are exact in binary32, and [strtof] reads [nan] as a
    NaN); elsewhere it throws. *)
Definition stof_sample (s : string) : conv float :=
  if String.eqb s "0" then Conv float_zero
  else if String.eqb s "1" then Conv float_one
  else if String.eqb s "0.5" then Conv (S754_finite false 8388608 (-24))
  else if String.eqb s "5" then Conv (S754_finite false 10485760 (-21))
  else if String.eqb s "nan" then Conv S754_nan
  else Throw (invalid_argument "stof").

(* ------------------------------------------------------------------ *)
(** ** Reading the wiring off the calls *)

Definition writer_class_eqb (c d : writer_class) : bool :=
  match c, d with
  | vtkSTLWriter, vtkSTLWriter => true
  | vtkPolyDataWriter, vtkPolyDataWriter => true
  | vtkXMLPolyDataWriter, vtkXMLPolyDataWriter => true
  | _, _ => false
  end.

Definition object_eqb (o p : object) : bool :=
  match o, p with
  | reader, reader => true
  | cfilt, cfilt => true
  | tfilt, tfilt => true
  | sfilt, sfilt => true
  | dfilt, dfilt => true
  | strip, strip => true
  | writer c, writer d => writer_class_eqb c d
  | _, _ => false
  end.

(** The object whose output port [o] reads: the source of the last
    [SetInputConnection] made on [o], if one was made. *)
Fixpoint upstream (o : object) (cs : list call) : option object :=
  match cs with
  | [] => None
  | (o', m) :: rest =>
      match upstream o rest with
      | Some src => Some src
      | None =>
          match m with
          | SetInputConnection src => if object_eqb o o' then Some src else None
          | _ => None
          end
      end
  end.

(** The objects met when walking upstream from [o], [o] first. *)
Fixpoint chain (fuel : nat) (cs : list call) (o : object) : list object :=
  match fuel with
  | O => []
  | S fuel' =>
      o :: match upstream o cs with
           | Some src => chain fuel' cs src
           | None => []
           end
  end.

(** The writer [main] selects for an output format. *)
Definition writer_of (fmt : string) : option writer_class :=
  if String.eqb fmt "stl" then Some vtkSTLWriter
  else if String.eqb fmt "vtk" then Some vtkPolyDataWriter
  else if String.eqb fmt "vtp" then Some vtkXMLPolyDataWriter
  else None.

(** The calls [main] makes for the configuration [a]. *)
Definition calls_of (write_result : Z) (a : args) : list call :=
  calls (snd (main write_result a empty_world)).

(** The [SetTargetReduction] arguments among the calls. *)
Fixpoint target_reductions (cs : list call) : list float :=
  match cs with
  | [] => []
  | (_, SetTargetReduction t) :: rest => t :: target_reductions rest
  | _ :: rest => target_reductions rest
  end.

(** The header type in force: the last [SetHeaderTypeTo...] call made. *)
Fixpoint header_type (cs : list call) : option method :=
  match cs with
  | [] => None
  | (_, m) :: rest =>
      match header_type rest with
      | Some h => Some h
      | None =>
          match m with
          | SetHeaderTypeToUInt64 | SetHeaderTypeToUInt32 => Some m
          | _ => None
          end
      end
  end.

(* ------------------------------------------------------------------ *)
(** ** The tokens of the command line *)

(** The options followed by a value. *)
Definition takes_value (tok : string) : bool :=
  opt tok "-c" "--clevel" || opt tok "-o" "--output" ||
  opt tok "-i" "--smooth-iter" || opt tok "-t" "--target-reduction".

(** The options without a value. *)
Definition is_flag (tok : string) : bool :=
  opt tok "-S" "--stl" || opt tok "-V" "--vtk" || opt tok "-X" "--vtp" ||
  opt tok "-D" "--decimate" || opt tok "-s" "--smooth" ||
  opt tok "-A" "--ascii" || opt tok "-U" "--uint64" || opt tok "-I" "--int32" ||
  opt tok "-v" "--verbose" || opt tok "-h" "--help".

Definition recognized (tok : string) : bool := takes_value tok || is_flag tok.

(** The positional tokens of a command line.  This follows the words of
    the usage text and of the claims, not the loop: a token is positional
    when it is neither a recognized option nor the value that follows a
    value-taking option ([-i] included). *)
Fixpoint positionals (l : list string) : list string :=
  match l with
  | [] => []
  | tok :: rest =>
      if takes_value tok then
        match rest with
        | [] => []
        | _ :: rest' => positionals rest'
        end
      else if is_flag tok then positionals rest
      else tok :: positionals rest
  end.

(** The loop arrives at the state [s]: [s] is the state at the top of some
    iteration (or after the last one). *)
Inductive reaches (stof : string -> conv float) (argv : list string) : state -> Prop :=
| reaches_initial : reaches stof argv initial
| reaches_next : forall s tok s',
    reaches stof argv s ->
    nth_error argv (i s) = Some tok ->
    body stof argv tok s = Next s' ->
    reaches stof argv s'.

(** What follows the loop, applied to its result. *)
Definition conclude (f : flow) : outcome :=
  match f with
  | Next s => finish s
  | Halt o => o
  end.

(** ** Loop invariants *)

(** The test of the [-t] branch, negated. *)
Definition in_range (t : float) : bool :=
  negb (SFleb t float_zero || SFleb float_one t).

(** Either an error is flagged, or the target reduction passed the test. *)
Definition range_checked (s : state) : Prop :=
  _abort s <> 0 \/ in_range (target_reduction (cargs s)) = true.

(** The output format is one of the three the driver knows. *)
Definition format_known (s : state) : Prop :=
  writer_of (out_format (cargs s)) <> None.

(** ** Further readings of a run *)

(** The number of [Write] calls. *)
Fixpoint count_Write (cs : list call) : nat :=
  match cs with
  | [] => O
  | (_, Write) :: rest => S (count_Write rest)
  | _ :: rest => count_Write rest
  end.

(** The writer objects that receive a call. *)
Fixpoint writers_used (cs : list call) : list writer_class :=
  match cs with
  | [] => []
  | (writer k, _) :: rest => k :: writers_used rest
  | _ :: rest => writers_used rest
  end.

(** The calls that choose between text and binary output. *)
Fixpoint encodings (cs : list call) : list method :=
  match cs with
  | [] => []
  | (_, m) :: rest =>
      match m with
      | SetFileTypeToASCII | SetFileTypeToBinary
      | SetDataModeToAscii | SetDataModeToBinary => m :: encodings rest
      | _ => encodings rest
      end
  end.


(** The [int] members of a configuration hold 0 or 1, and the iteration
    count is an [int]. *)
Definition flags_boolean (a : args) : Prop :=
  (decimate a = 0 \/ decimate a = 1) /\
  (smooth a = 0 \/ smooth a = 1) /\
  (ascii a = 0 \/ ascii a = 1) /\
  (uint64 a = 0 \/ uint64 a = 1) /\
  (int32 a = 0 \/ int32 a = 1) /\
  (verbose a = 0 \/ verbose a = 1) /\
  INT_MIN <= smooth_iter a <= INT_MAX.

(** Every error flagged has a line on [cerr], and only flagged errors do. *)
Definition abort_explained (s : state) : Prop :=
  (_abort s = 0 /\ cerr s = []) \/ (_abort s = 1 /\ cerr s <> []).

(** The usage text has not been printed. *)
Definition no_usage (s : state) : Prop :=
  ~ In [str usage_string] (cerr s).

(* ------------------------------------------------------------------ *)
(** * Properties *)

(** ** The loop *)

(** Case analysis on the branch [body] takes, on a hypothesis [H] that
    mentions [body]: every test and every conversion is split in turn. *)
Ltac body_split H :=
  unfold body in H;
  repeat match type of H with
    | context [if opt ?t ?a ?b then _ else _] => destruct (opt t a b) eqn:?
    | context [match nth_error ?l ?n with _ => _ end] => destruct (nth_error l n) eqn:?
    | context [match ?c with Conv _ => _ | Throw _ => _ end] => destruct c eqn:?
    | context [if ?c then _ else _] => destruct c eqn:?
    end.

Ltac body_cases H := body_split H; inversion H; subst; clear H.

Section Loop.

Variable stof : string -> conv float.
Variable argv : list string.

(** Every iteration that goes on moves the cursor by one or two. *)
Lemma body_advances tok s s' :
  body stof argv tok s = Next s' -> (i s < i s' <= i s + 2)%nat.
Proof.
  intros H. body_cases H; simpl; lia.
Qed.

(** Nothing is ever removed from [cerr], and [_abort] is never cleared. *)
Lemma body_keeps tok s s' :
  body stof argv tok s = Next s' ->
  (exists more, cerr s' = (cerr s ++ more)%list) /\ (_abort s <> 0 -> _abort s' <> 0).
Proof.
  intros H. body_cases H; simpl; split; intros;
    solve [ exists []; now rewrite app_nil_r
          | eexists; rewrite <- ?app_assoc; reflexivity
          | assumption
          | discriminate ].
Qed.

Lemma body_halt_keeps tok s o :
  body stof argv tok s = Halt o ->
  is_returned o = false /\ exists more, stderr o = (cerr s ++ more)%list.
Proof.
  intros H. body_cases H; simpl; split; try reflexivity;
    solve [ exists []; now rewrite app_nil_r
          | eexists; unfold print_usage; reflexivity ].
Qed.

Lemma finish_keeps s :
  (exists more, stderr (finish s) = (cerr s ++ more)%list) /\
  (_abort s <> 0 -> is_returned (finish s) = false).
Proof.
  unfold finish, truthy.
  split.
  - repeat match goal with
      | |- context [if ?c then _ else _] => destruct c
      end; simpl;
      solve [ exists []; now rewrite app_nil_r
            | eexists; rewrite <- ?app_assoc; reflexivity ].
  - intros Hab.
    repeat match goal with
      | |- context [if String.eqb ?a ?b then _ else _] => destruct (String.eqb a b)
      | |- context [if ?a && ?b then _ else _] => destruct (a && b)
      end; simpl; try reflexivity;
      destruct (Z.eqb_spec (_abort s) 0); simpl; solve [contradiction | reflexivity].
Qed.

(** The result of the loop does not depend on the fuel, once there is
    enough of it to reach the end of [argv]. *)
Lemma while_fuel fuel1 : forall fuel2 s,
  (length argv <= fuel1 + i s)%nat ->
  (length argv <= fuel2 + i s)%nat ->
  while stof fuel1 argv s = while stof fuel2 argv s.
Proof.
  induction fuel1 as [|f1 IH]; intros [|f2] s H1 H2; simpl; try reflexivity.
  - assert (E : nth_error argv (i s) = None) by (apply nth_error_None; lia).
    now rewrite E.
  - assert (E : nth_error argv (i s) = None) by (apply nth_error_None; lia).
    now rewrite E.
  - destruct (nth_error argv (i s)) as [tok|] eqn:E; [|reflexivity].
    destruct (body stof argv tok s) as [s'|o] eqn:B; [|reflexivity].
    apply body_advances in B. apply IH; lia.
Qed.

(** The loop is left only when the cursor is at or past [argc]. *)
Lemma while_exits fuel : forall s s',
  (length argv <= fuel + i s)%nat ->
  while stof fuel argv s = Next s' ->
  (length argv <= i s')%nat.
Proof.
  induction fuel as [|f IH]; intros s s' Hf H; simpl in H.
  - inversion H; subst. lia.
  - destruct (nth_error argv (i s)) as [tok|] eqn:E.
    + destruct (body stof argv tok s) as [s1|o] eqn:B; [|discriminate].
      apply (IH s1); [|assumption]. apply body_advances in B. lia.
    + inversion H; subst. now apply nth_error_None.
Qed.

(** One iteration of the loop, unfolded. *)
Lemma while_step s tok :
  nth_error argv (i s) = Some tok ->
  while stof (length argv) argv s =
  match body stof argv tok s with
  | Next s' => while stof (length argv) argv s'
  | Halt o => Halt o
  end.
Proof.
  intros E.
  assert (Hlt : (i s < length argv)%nat)
    by (apply nth_error_Some; rewrite E; discriminate).
  transitivity (while stof (S (length argv)) argv s).
  - apply while_fuel; lia.
  - simpl. rewrite E. reflexivity.
Qed.

(** From a state the loop arrives at, the rest of the loop decides the
    outcome of [parse_args]. *)
Lemma parse_args_from s :
  reaches stof argv s ->
  parse_args stof argv = conclude (while stof (length argv) argv s).
Proof.
  induction 1 as [|s tok s' _ IH E B].
  - reflexivity.
  - rewrite IH, (while_step s tok E), B. reflexivity.
Qed.

(** Once an error is flagged and reported, the loop cannot undo it. *)
Lemma while_doomed l fuel : forall s,
  _abort s <> 0 -> In l (cerr s) ->
  is_returned (conclude (while stof fuel argv s)) = false /\
  In l (stderr (conclude (while stof fuel argv s))).
Proof.
  assert (F : forall s, _abort s <> 0 -> In l (cerr s) ->
            is_returned (finish s) = false /\ In l (stderr (finish s))).
  { intros s Hab Hin. destruct (finish_keeps s) as [[more E] R].
    split; [now apply R | rewrite E; apply in_or_app; now left]. }
  induction fuel as [|f IH]; intros s Hab Hin; simpl.
  - now apply F.
  - destruct (nth_error argv (i s)) as [tok|]; [|now apply F].
    destruct (body stof argv tok s) as [s'|o] eqn:B.
    + destruct (body_keeps _ _ _ B) as [[more E] K].
      apply IH; [now apply K | rewrite E; apply in_or_app; now left].
    + destruct (body_halt_keeps _ _ _ B) as [R [more E]]. simpl.
      split; [assumption | rewrite E; apply in_or_app; now left].
Qed.

(** A loop that is left from inside never returns a configuration. *)
Lemma while_halt fuel : forall s o,
  while stof fuel argv s = Halt o -> is_returned o = false.
Proof.
  induction fuel as [|f IH]; intros s o L; simpl in L.
  - discriminate.
  - destruct (nth_error argv (i s)) as [tok|]; [|discriminate].
    destruct (body stof argv tok s) as [s1|o1] eqn:B.
    + now apply (IH s1).
    + inversion L; subst. now destruct (body_halt_keeps tok s _ B).
Qed.

Lemma parse_args_doomed l s :
  reaches stof argv s -> _abort s <> 0 -> In l (cerr s) ->
  is_returned (parse_args stof argv) = false /\
  In l (stderr (parse_args stof argv)).
Proof.
  intros R Hab Hin. rewrite (parse_args_from s R). now apply while_doomed.
Qed.

End Loop.

(** [parse_args] always comes to an end with the cursor past the last
    argument: the fuel of [while] never runs out. *)
Lemma parse_loop_exits stof argv s :
  while stof (length argv) argv initial = Next s -> (length argv <= i s)%nat.
Proof.
  apply while_exits. simpl. lia.
Qed.

(** The statements after the loop, in one expression. *)
Lemma finish_spec s :
  finish s =
  let a := set_out_fn_full (out_fn (cargs s) ++ "." ++ out_format (cargs s)) (cargs s) in
  let missing := String.eqb (map_fn (cargs s)) "" in
  let warn := (uint64 (cargs s) =? 1) && negb (String.eqb (out_format (cargs s)) "vtp") in
  let err := (cerr s ++ (if missing then [map_not_specified] else []) ++
              (if warn then [uint64_warning (out_format (cargs s))] else []))%list in
  if truthy (_abort s) || missing then aborted err else returned a err.
Proof.
  unfold finish, assign, flag_abort, report.
  cbn -[truthy Z.eqb String.eqb String.append].
  destruct (String.eqb (map_fn (cargs s)) "");
    cbn -[truthy Z.eqb String.eqb String.append];
    destruct ((uint64 (cargs s) =? 1) && negb (String.eqb (out_format (cargs s)) "vtp"));
    cbn -[truthy Z.eqb String.eqb String.append];
    destruct (truthy (_abort s));
    cbn -[truthy Z.eqb String.eqb String.append];
    rewrite ?app_nil_r, <- ?app_assoc; reflexivity.
Qed.

(** ** Invariants of the loop *)

Section Invariants.

Variable stof : string -> conv float.
Variable argv : list string.

(** A property of the loop state kept by every iteration holds when the
    loop is left. *)
Lemma while_invariant (P : state -> Prop) :
  (forall tok s s', P s -> body stof argv tok s = Next s' -> P s') ->
  forall fuel s s', P s -> while stof fuel argv s = Next s' -> P s'.
Proof.
  intros Step. induction fuel as [|f IH]; intros s s' Hs H; simpl in H.
  - now inversion H; subst.
  - destruct (nth_error argv (i s)) as [tok|]; [|now inversion H; subst].
    destruct (body stof argv tok s) as [s1|o] eqn:B; [|discriminate].
    apply (IH s1); [now apply (Step tok s)|assumption].
Qed.

Lemma body_range_checked tok s s' :
  range_checked s -> body stof argv tok s = Next s' -> range_checked s'.
Proof.
  unfold range_checked, in_range. intros Hs H.
  body_cases H; cbn in *;
    solve [ assumption
          | left; discriminate
          | right; match goal with E : _ || _ = false |- _ => now rewrite E end
          | destruct Hs; [now left | now right] ].
Qed.

Lemma body_format_known tok s s' :
  format_known s -> body stof argv tok s = Next s' -> format_known s'.
Proof.
  unfold format_known. intros Hs H.
  body_cases H; cbn in *; solve [assumption | discriminate].
Qed.

End Invariants.

(** The format of a configuration [parse_args] returns is one of the three
    for which [main] has a writer. *)
Lemma returned_format_known stof argv a e :
  parse_args stof argv = returned a e -> writer_of (out_format a) <> None.
Proof.
  unfold parse_args.
  destruct (while stof (length argv) argv initial) as [s|o] eqn:L.
  - assert (F0 : format_known initial) by (cbv; discriminate).
    pose proof (while_invariant stof argv format_known
                  (body_format_known stof argv) _ _ _ F0 L) as F.
    rewrite finish_spec. cbn zeta.
    destruct (truthy (_abort s) || String.eqb (map_fn (cargs s)) ""); [discriminate|].
    intros H. inversion H; subst. exact F.
  - intros H. subst o. apply while_halt in L. discriminate.
Qed.

(** A run that does not return from [parse_args] makes no VTK call and
    writes nothing to [cout]. *)
Lemma no_return_no_pipeline stof w argv :
  is_returned (parse_args stof argv) = false ->
  run_calls (meshmaker stof w argv) = [] /\
  run_cout (meshmaker stof w argv) = [] /\
  run_cerr (meshmaker stof w argv) = stderr (parse_args stof argv).
Proof.
  unfold meshmaker. destruct (parse_args stof argv); simpl; intros H;
    try discriminate; auto.
Qed.

(* ------------------------------------------------------------------ *)
(** ** The driver *)

(** Case analysis on every test [main] makes on the configuration [a]. *)
Ltac main_cases a :=
  unfold calls_of, main, write_stl, write_vtk, write_vtp, call_Write,
    writer_of, when;
  destruct (truthy (verbose a)), (truthy (decimate a)), (truthy (smooth a));
  (destruct (String.eqb (out_format a) "stl");
   [ destruct (truthy (ascii a))
   | destruct (String.eqb (out_format a) "vtk");
     [ destruct (truthy (ascii a))
     | destruct (String.eqb (out_format a) "vtp");
       [ destruct (truthy (ascii a)), (truthy (int32 a)), (truthy (uint64 a))
       | ] ] ]).

(** C1 (as amended).  For every configuration the stages are wired in the
    order reader, contour filter, then the triangle filter only when
    smoothing or decimation is enabled, then the smoother when enabled, then
    the decimator when enabled, then the stripper, then the writer.  The
    triangle filter reads the contour filter exactly when smoothing or
    decimation is enabled; otherwise it is left unconnected and the stripper
    reads the contour filter.  With both enabled the smoother feeds the
    decimator. *)
Theorem wiring_order w a :
  let cs := calls_of w a in
  let d := truthy (decimate a) in
  let s := truthy (smooth a) in
  rev (chain 7 cs strip) =
    ([reader; cfilt] ++ (if d || s then [tfilt] else []) ++
     (if s then [sfilt] else []) ++ (if d then [dfilt] else []) ++ [strip])%list /\
  upstream tfilt cs = (if d || s then Some cfilt else None) /\
  upstream sfilt cs = (if s then Some tfilt else None) /\
  upstream dfilt cs = (if d then Some (if s then sfilt else tfilt) else None) /\
  match writer_of (out_format a) with
  | Some k => upstream (writer k) cs = Some strip
  | None => True
  end.
Proof.
  main_cases a; vm_compute; repeat split.
Qed.

(** C1, the claim as stated fails: with neither smoothing nor decimation
    the triangle filter has no input, and the stripper reads the contour
    filter. *)
Lemma triangulator_bypassed :
  upstream tfilt (run_calls (meshmaker stof_sample 1 ["meshmaker"; "f.map"])) = None /\
  chain 7 (run_calls (meshmaker stof_sample 1 ["meshmaker"; "f.map"]))
    (writer vtkXMLPolyDataWriter) =
  [writer vtkXMLPolyDataWriter; strip; cfilt; reader].
Proof.
  split; vm_compute; reflexivity.
Qed.

(** [main] never looks at what [Write] returns. *)
Lemma main_ignores_write_result w a :
  main w a empty_world = main 1 a empty_world /\
  fst (main w a empty_world) = EXIT_SUCCESS /\
  match writer_of (out_format a) with
  | Some k => last (calls_of w a) (reader, Write) = (writer k, Write)
  | None => True
  end.
Proof.
  main_cases a; vm_compute; repeat split.
Qed.

(** C2 (as amended).  The driver ignores the value [Write] returns: the
    whole run (how it ends, what it prints, the calls it makes) is the same
    for every such value.  When [parse_args] returns, the last call made is
    the writer's [Write], the exit status is [EXIT_SUCCESS], and [cerr] holds
    what the parser wrote and nothing more. *)
Theorem write_result_ignored stof w argv :
  meshmaker stof w argv = meshmaker stof 1 argv /\
  (is_returned (parse_args stof argv) = true ->
   ending (meshmaker stof w argv) = exited EXIT_SUCCESS /\
   run_cerr (meshmaker stof w argv) = stderr (parse_args stof argv) /\
   exists k, last (run_calls (meshmaker stof w argv)) (reader, Write) = (writer k, Write)).
Proof.
  unfold meshmaker.
  destruct (parse_args stof argv) as [a e| | |] eqn:P; cbn [is_returned stderr];
    try (split; [reflexivity | discriminate]).
  destruct (main_ignores_write_result w a) as [E [S L]].
  unfold calls_of in L.
  pose proof (returned_format_known stof argv a e P) as K.
  rewrite <- E.
  destruct (main w a empty_world) as [st wd]. cbn [fst snd] in *.
  split; [reflexivity|]. intros _. cbn [ending run_cerr run_calls].
  split; [now rewrite S|]. split; [reflexivity|].
  destruct (writer_of (out_format a)) as [k|]; [|contradiction].
  now exists k.
Qed.

(** C2, the claim as stated fails: when [Write] reports failure (0) the
    process still exits with status 0, and the driver reports nothing. *)
Lemma unwritable_exits_zero :
  ending (meshmaker stof_sample 0 ["meshmaker"; "f.map"]) = exited 0 /\
  run_cerr (meshmaker stof_sample 0 ["meshmaker"; "f.map"]) = [] /\
  last (run_calls (meshmaker stof_sample 0 ["meshmaker"; "f.map"])) (reader, Write) =
    (writer vtkXMLPolyDataWriter, Write).
Proof.
  repeat split; vm_compute; reflexivity.
Qed.

(** C5.  When decimation is enabled the decimator is given the configured
    target reduction, and no other; topology preservation is switched on;
    and the decimator is what the stripper reads. *)
Theorem decimation_configured w a :
  truthy (decimate a) = true ->
  target_reductions (calls_of w a) = [target_reduction a] /\
  In (dfilt, SetTargetReduction (target_reduction a)) (calls_of w a) /\
  In (dfilt, PreserveTopologyOn) (calls_of w a) /\
  upstream strip (calls_of w a) = Some dfilt.
Proof.
  intros D. main_cases a; try discriminate D; vm_compute; intuition.
Qed.

Lemma decimation_configured_witness :
  truthy (decimate (set_decimate 1 default_args)) = true /\
  target_reductions (calls_of 1 (set_decimate 1 default_args)) = [float_0_9].
Proof.
  split; [reflexivity|].
  exact (proj1 (decimation_configured 1 (set_decimate 1 default_args) eq_refl)).
Defined.

(** A whole run with decimation requested on the command line. *)
Example decimation_run :
  run_calls (meshmaker stof_sample 1 ["meshmaker"; "f.map"; "-D"; "-t"; "0.5"]) =
    [(reader, SetFileName "f.map");
     (cfilt, SetInputConnection reader);
     (cfilt, SetValue 0 float_zero);
     (tfilt, SetInputConnection cfilt);
     (dfilt, SetInputConnection tfilt);
     (dfilt, SetTargetReduction (S754_finite false 8388608 (-24)));
     (dfilt, PreserveTopologyOn);
     (strip, SetInputConnection dfilt);
     (strip, SetMaximumLength 1000);
     (writer vtkXMLPolyDataWriter, SetFileName "out.vtp");
     (writer vtkXMLPolyDataWriter, SetInputConnection strip);
     (writer vtkXMLPolyDataWriter, SetIdTypeToInt64);
     (writer vtkXMLPolyDataWriter, SetDataModeToBinary);
     (writer vtkXMLPolyDataWriter, SetHeaderTypeToUInt32);
     (writer vtkXMLPolyDataWriter, Write)].
Proof.
  reflexivity.
Qed.

(* ------------------------------------------------------------------ *)
(** ** The parser *)

(** The token under the cursor selects the branch of [body]: a token that
    is one of an option's two spellings is that spelling. *)
Lemma opt_inv tok short long :
  opt tok short long = true -> tok = short \/ tok = long.
Proof.
  unfold opt. intros H. apply orb_true_iff in H.
  destruct H as [H|H]; apply String.eqb_eq in H; auto.
Qed.

(** [stoi] throws on every recognized option: none starts, after an
    optional sign, with a digit. *)
Lemma stoi_recognized tok n :
  stoi tok = Conv n -> recognized tok = false.
Proof.
  intros H. destruct (recognized tok) eqn:R; [|reflexivity].
  unfold recognized, takes_value, is_flag in R.
  unfold opt in R.
  repeat (apply orb_true_iff in R; destruct R as [R|R]);
    apply String.eqb_eq in R; subst; vm_compute in H; discriminate.
Qed.

(** A token that is not recognized is stored as the input file name. *)
Lemma body_positional stof argv tok s :
  recognized tok = false ->
  body stof argv tok s = Next (advance 1 (assign (set_map_fn tok) s)).
Proof.
  unfold recognized, takes_value, is_flag, opt. intros R.
  repeat match goal with
    | H : _ || _ = false |- _ => apply orb_false_iff in H; destruct H
    end.
  unfold body, opt.
  repeat match goal with H : String.eqb tok _ = false |- _ => rewrite H; clear H end.
  reflexivity.
Qed.

(** C3, the code at the failing input.  A malformed value of [-i] is not
    caught: the exception leaves [parse_args] at once, the missing input
    file is never reported, and nothing at all has been written to [cerr]
    by the program when it dies.  (The [-c] and [-t] branches catch theirs:
    see [clevel_error_collected].) *)
Theorem smooth_iter_error_not_collected stof w :
  parse_args stof ["meshmaker"; "-i"; "abc"] =
    terminated (invalid_argument "stoi") [] /\
  meshmaker stof w ["meshmaker"; "-i"; "abc"] =
    {| ending := sigabrt; run_cerr := []; run_cout := []; run_calls := [] |}.
Proof.
  split; reflexivity.
Qed.

(** The sibling branch: a malformed value of [-c] is caught and reported,
    parsing goes on, and the missing input file is reported too. *)
Example clevel_error_collected :
  parse_args stof_sample ["meshmaker"; "-c"; "abc"] =
    aborted [exception_caught (invalid_argument "stof"); map_not_specified].
Proof.
  reflexivity.
Qed.

(** The [-t] branch on a value out of range. *)
Lemma body_target_out_of_range stof argv tok s v t :
  opt tok "-t" "--target-reduction" = true ->
  nth_error argv (i s + 1) = Some v ->
  stof v = Conv t ->
  SFleb t float_zero = true \/ SFleb float_one t = true ->
  body stof argv tok s =
  Next (advance 2 (flag_abort (report (target_out_of_range t)
                                 (assign (set_target_reduction t) s)))).
Proof.
  intros O V F R.
  assert (C : SFleb t float_zero || SFleb float_one t = true).
  { apply orb_true_iff. exact R. }
  apply opt_inv in O. destruct O; subst tok; unfold body;
    cbn [opt String.eqb Ascii.eqb Bool.eqb orb]; rewrite V, F;
    cbn [assign cargs target_reduction set_target_reduction]; rewrite C;
    reflexivity.
Qed.

(** C4.  When the loop comes to a [-t] option whose value converts to a
    float [t] with [t <= 0] or [t >= 1], the message that [t] is out of
    range is written to [cerr], [parse_args] does not return, and the run
    makes no VTK call and prints nothing on [cout]. *)
Theorem target_reduction_rejected stof w argv s tok v t :
  reaches stof argv s ->
  nth_error argv (i s) = Some tok ->
  opt tok "-t" "--target-reduction" = true ->
  nth_error argv (i s + 1) = Some v ->
  stof v = Conv t ->
  SFleb t float_zero = true \/ SFleb float_one t = true ->
  In (target_out_of_range t) (stderr (parse_args stof argv)) /\
  is_returned (parse_args stof argv) = false /\
  run_calls (meshmaker stof w argv) = [] /\
  run_cout (meshmaker stof w argv) = [].
Proof.
  intros R E O V F B.
  pose proof (body_target_out_of_range stof argv tok s v t O V F B) as Hb.
  pose proof (reaches_next stof argv s tok _ R E Hb) as R'.
  destruct (parse_args_doomed stof argv (target_out_of_range t) _ R') as [Hr Hin].
  - simpl. discriminate.
  - simpl. apply in_or_app. right. now left.
  - destruct (no_return_no_pipeline stof w argv Hr) as [Hc [Ho _]]. auto.
Qed.

(** The boundary value 1, after a positional argument. *)
Lemma target_reduction_rejected_witness :
  In (target_out_of_range float_one)
     (stderr (parse_args stof_sample ["meshmaker"; "f.map"; "-t"; "1"])) /\
  is_returned (parse_args stof_sample ["meshmaker"; "f.map"; "-t"; "1"]) = false /\
  run_calls (meshmaker stof_sample 1 ["meshmaker"; "f.map"; "-t"; "1"]) = [] /\
  run_cout (meshmaker stof_sample 1 ["meshmaker"; "f.map"; "-t"; "1"]) = [].
Proof.
  apply (target_reduction_rejected stof_sample 1 ["meshmaker"; "f.map"; "-t"; "1"]
           (advance 1 (assign (set_map_fn "f.map") initial)) "-t" "1" float_one).
  - apply (reaches_next _ _ initial "f.map"); [apply reaches_initial | | ]; reflexivity.
  - reflexivity.
  - reflexivity.
  - reflexivity.
  - reflexivity.
  - right. reflexivity.
Defined.

(** The boundary value 0. *)
Example target_reduction_zero_rejected :
  parse_args stof_sample ["meshmaker"; "f.map"; "-D"; "-t"; "0"] =
    aborted [target_out_of_range float_zero].
Proof.
  reflexivity.
Qed.

(** C6 (as amended).  When the loop comes to a help flag, the usage text
    is written to [cerr] and [abort()] ends the process: a non-zero status,
    no VTK call, nothing on [cout]. *)
Theorem help_aborts stof w argv s tok :
  reaches stof argv s ->
  nth_error argv (i s) = Some tok ->
  opt tok "-h" "--help" = true ->
  parse_args stof argv = aborted (cerr s ++ [[str usage_string]]) /\
  meshmaker stof w argv =
    {| ending := sigabrt; run_cerr := (cerr s ++ [[str usage_string]])%list;
       run_cout := []; run_calls := [] |} /\
  nonzero_status (ending (meshmaker stof w argv)).
Proof.
  intros R E O.
  assert (P : parse_args stof argv = aborted (cerr s ++ [[str usage_string]])).
  { rewrite (parse_args_from stof argv s R), (while_step stof argv s tok E).
    apply opt_inv in O. destruct O; subst tok; reflexivity. }
  unfold meshmaker. rewrite P. simpl. auto.
Qed.

Lemma help_aborts_witness :
  parse_args stof_sample ["meshmaker"; "f.map"; "--help"; "-S"] =
    aborted [[str usage_string]] /\
  meshmaker stof_sample 1 ["meshmaker"; "f.map"; "--help"; "-S"] =
    {| ending := sigabrt; run_cerr := [[str usage_string]];
       run_cout := []; run_calls := [] |} /\
  nonzero_status (ending (meshmaker stof_sample 1 ["meshmaker"; "f.map"; "--help"; "-S"])).
Proof.
  apply (help_aborts stof_sample 1 ["meshmaker"; "f.map"; "--help"; "-S"]
           (advance 1 (assign (set_map_fn "f.map") initial)) "--help").
  - apply (reaches_next _ _ initial "f.map"); [apply reaches_initial | | ]; reflexivity.
  - reflexivity.
  - reflexivity.
Defined.

(** C6, the claim as stated fails: a help flag that follows [-o] is taken
    as the output prefix; no usage text is printed, the pipeline is built,
    the writer is called on the file [-h.vtp] and the exit status is 0. *)
Lemma help_flag_taken_as_value :
  meshmaker stof_sample 1 ["meshmaker"; "f.map"; "-o"; "-h"] =
    {| ending := exited 0;
       run_cerr := [];
       run_cout := [];
       run_calls :=
         [(reader, SetFileName "f.map");
          (cfilt, SetInputConnection reader);
          (cfilt, SetValue 0 float_zero);
          (strip, SetInputConnection cfilt);
          (strip, SetMaximumLength 1000);
          (writer vtkXMLPolyDataWriter, SetFileName "-h.vtp");
          (writer vtkXMLPolyDataWriter, SetInputConnection strip);
          (writer vtkXMLPolyDataWriter, SetIdTypeToInt64);
          (writer vtkXMLPolyDataWriter, SetDataModeToBinary);
          (writer vtkXMLPolyDataWriter, SetHeaderTypeToUInt32);
          (writer vtkXMLPolyDataWriter, Write)] |}.
Proof.
  reflexivity.
Qed.

(** Outside the VTP branch [main] never looks at [uint64]. *)
Lemma main_uint64_irrelevant w a u :
  out_format a <> "vtp" ->
  main w (set_uint64 u a) empty_world = main w a empty_world.
Proof.
  intros N. apply String.eqb_neq in N.
  unfold main, write_stl, write_vtk.
  cbn [set_uint64 verbose map_fn clevel decimate smooth smooth_iter
       target_reduction out_fn_full out_format ascii].
  destruct (String.eqb (out_format a) "stl"); [reflexivity|].
  destruct (String.eqb (out_format a) "vtk"); [reflexivity|].
  rewrite N. reflexivity.
Qed.

(** C7.  When the loop ends with [uint64] set and a format other than
    vtp, the warning is written to [cerr] and counts for nothing in the
    decision to abort: [parse_args] returns exactly when no error was flagged
    in the loop and an input file was given.  When it returns, [main] does
    what it does with [uint64] cleared: the same output, the same calls, the
    same exit status. *)
Theorem uint64_non_vtp_warning stof w argv s :
  while stof (length argv) argv initial = Next s ->
  uint64 (cargs s) = 1 ->
  out_format (cargs s) <> "vtp" ->
  In (uint64_warning (out_format (cargs s))) (stderr (parse_args stof argv)) /\
  is_returned (parse_args stof argv) =
    negb (truthy (_abort s)) && negb (String.eqb (map_fn (cargs s)) "") /\
  forall a e, parse_args stof argv = returned a e ->
    uint64 a = 1 /\ out_format a = out_format (cargs s) /\
    main w a empty_world = main w (set_uint64 0 a) empty_world.
Proof.
  intros L U N.
  assert (P : parse_args stof argv = finish s) by (unfold parse_args; now rewrite L).
  rewrite P, finish_spec. clear P L.
  pose proof N as N'. apply String.eqb_neq in N'.
  rewrite U, N'. cbn zeta. cbn [Z.eqb Pos.eqb negb andb].
  destruct (truthy (_abort s)), (String.eqb (map_fn (cargs s)) "");
    cbn [orb negb andb stderr is_returned];
    (split; [apply in_or_app; right; apply in_or_app; right; now left|]);
    (split; [reflexivity|]); intros a e H; try discriminate H.
  inversion H; subst. cbn [uint64 out_format set_out_fn_full].
  repeat split; try assumption.
  symmetry. apply main_uint64_irrelevant. exact N.
Qed.

Lemma uint64_non_vtp_warning_witness :
  In (uint64_warning "stl")
     (stderr (parse_args stof_sample ["meshmaker"; "f.map"; "-U"; "-S"])) /\
  is_returned (parse_args stof_sample ["meshmaker"; "f.map"; "-U"; "-S"]) = true.
Proof.
  pose (s := advance 1 (assign (set_out_format "stl")
             (advance 1 (assign (set_uint64 1)
             (advance 1 (assign (set_map_fn "f.map") initial)))))).
  destruct (uint64_non_vtp_warning stof_sample 1
              ["meshmaker"; "f.map"; "-U"; "-S"] s) as [H1 [H2 _]].
  - reflexivity.
  - reflexivity.
  - discriminate.
  - split; [exact H1 | exact H2].
Defined.

(** C9.  At a [-i] option whose value [N] converts to an integer, the
    iteration stores the integer and moves the cursor by one only; the next
    iteration finds [N] under the cursor and stores it as the input file
    name.  The two iterations leave the cursor two further. *)
Theorem smooth_iter_value_reparsed stof argv s tok N n :
  nth_error argv (i s) = Some tok ->
  opt tok "-i" "--smooth-iter" = true ->
  nth_error argv (i s + 1) = Some N ->
  stoi N = Conv n ->
  let s1 := advance 1 (assign (set_smooth_iter n) s) in
  let s2 := advance 1 (assign (set_map_fn N) s1) in
  body stof argv tok s = Next s1 /\
  nth_error argv (i s1) = Some N /\
  body stof argv N s1 = Next s2 /\
  map_fn (cargs s2) = N /\
  smooth_iter (cargs s2) = n /\
  i s2 = (i s + 2)%nat /\
  forall fuel, while stof (S (S fuel)) argv s = while stof fuel argv s2.
Proof.
  intros E O V C s1 s2.
  assert (B1 : body stof argv tok s = Next s1).
  { apply opt_inv in O. destruct O; subst tok; unfold body;
      cbn [opt String.eqb Ascii.eqb Bool.eqb orb]; now rewrite V, C. }
  assert (B2 : body stof argv N s1 = Next s2).
  { apply body_positional. now apply stoi_recognized with n. }
  assert (E1 : nth_error argv (i s1) = Some N) by exact V.
  repeat split; try assumption.
  - simpl. lia.
  - intros fuel. simpl. rewrite E, B1.
    change (nth_error argv (i s + 1)) with (nth_error argv (i s1)).
    rewrite E1, B2. reflexivity.
Qed.

Lemma smooth_iter_value_reparsed_witness :
  body stof_sample ["meshmaker"; "-i"; "5"] "-i" initial =
    Next (advance 1 (assign (set_smooth_iter 5) initial)) /\
  body stof_sample ["meshmaker"; "-i"; "5"] "5"
       (advance 1 (assign (set_smooth_iter 5) initial)) =
    Next (advance 1 (assign (set_map_fn "5")
            (advance 1 (assign (set_smooth_iter 5) initial)))).
Proof.
  destruct (smooth_iter_value_reparsed stof_sample ["meshmaker"; "-i"; "5"]
              initial "-i" "5" 5 eq_refl eq_refl eq_refl eq_refl)
    as [H1 [_ [H2 _]]].
  split; [exact H1 | exact H2].
Defined.

(** The whole run on [meshmaker -i 5]: accepted, with [5] as input file. *)
Example smooth_iter_run :
  parse_args stof_sample ["meshmaker"; "-i"; "5"] =
    returned (set_out_fn_full "out.vtp"
                (set_map_fn "5" (set_smooth_iter 5 default_args))) [].
Proof.
  reflexivity.
Qed.

(** The branch of a value-taking option reads [argv[i + 1]]. *)
Lemma body_takes_value stof argv tok s :
  takes_value tok = true ->
  match nth_error argv (i s + 1) with
  | Some _ => forall e, body stof argv tok s <> Halt (past_end e)
  | None => body stof argv tok s = Halt (past_end (cerr s))
  end.
Proof.
  unfold takes_value, opt. intros T.
  repeat (apply orb_true_iff in T; destruct T as [T|T]);
    apply String.eqb_eq in T; subst tok; unfold body;
    cbn [opt String.eqb Ascii.eqb Bool.eqb orb];
    destruct (nth_error argv (i s + 1)) as [v|]; try reflexivity; intros e;
    try destruct (stof v); try destruct (stoi v); discriminate.
Qed.

(** C10 (as amended).  With a value-taking option under the cursor, the
    iteration reads the token at [i + 1].  When the option is not the last
    token the read is inside [argv] and the iteration does not end in
    [past_end]; when it is the last token the read is [argv[argc]] and the
    iteration ends in [past_end].  So a run whose loop comes to its last
    token with a value-taking option there ends in [past_end]. *)
Theorem value_option_reads_next stof argv s tok :
  nth_error argv (i s) = Some tok ->
  takes_value tok = true ->
  ((i s + 1 < length argv)%nat ->
     exists v, nth_error argv (i s + 1) = Some v /\
               forall e, body stof argv tok s <> Halt (past_end e)) /\
  ((i s + 1 = length argv)%nat ->
     nth_error argv (i s + 1) = None /\
     body stof argv tok s = Halt (past_end (cerr s))) /\
  ((i s + 1 = length argv)%nat -> reaches stof argv s ->
     parse_args stof argv = past_end (cerr s)).
Proof.
  intros E T.
  pose proof (body_takes_value stof argv tok s T) as B.
  assert (Last : (i s + 1 = length argv)%nat ->
                 body stof argv tok s = Halt (past_end (cerr s))).
  { intros L. assert (Nn : nth_error argv (i s + 1) = None)
      by (apply nth_error_None; lia).
    now rewrite Nn in B. }
  split; [|split].
  - intros L. destruct (nth_error argv (i s + 1)) as [v|] eqn:V.
    + exists v. split; [reflexivity | exact B].
    + apply nth_error_None in V. lia.
  - intros L. split; [apply nth_error_None; lia | now apply Last].
  - intros L R.
    rewrite (parse_args_from stof argv s R), (while_step stof argv s tok E), (Last L).
    reflexivity.
Qed.

Lemma value_option_reads_next_witness :
  parse_args stof_sample ["meshmaker"; "f.map"; "-c"] = past_end [].
Proof.
  refine (proj2 (proj2 (value_option_reads_next stof_sample
            ["meshmaker"; "f.map"; "-c"]
            (advance 1 (assign (set_map_fn "f.map") initial)) "-c"
            eq_refl eq_refl)) eq_refl _).
  apply (reaches_next _ _ initial "f.map"); [apply reaches_initial | | ]; reflexivity.
Defined.

(** C10, the claim as stated fails: a command line may end in a
    value-taking option without any read past its end, when that last token
    is itself the value of the option before it.  Here [-c] is the output
    prefix and [parse_args] returns. *)
Lemma trailing_option_taken_as_value :
  parse_args stof_sample ["meshmaker"; "f.map"; "-o"; "-c"] =
    returned (set_out_fn_full "-c.vtp"
                (set_out_fn "-c" (set_map_fn "f.map" default_args))) [].
Proof.
  reflexivity.
Qed.

(** C8, the code at the failing input.  The tokens that are neither options
    nor option values are [a.map] and [b.map], yet the input file is [5],
    the value of [-i], which the loop reads a second time. *)
Theorem smooth_iter_value_becomes_map_fn stof :
  positionals ["a.map"; "b.map"; "-i"; "5"] = ["a.map"; "b.map"] /\
  parse_args stof ["meshmaker"; "a.map"; "b.map"; "-i"; "5"] =
    returned (set_out_fn_full "out.vtp"
                (set_smooth_iter 5 (set_map_fn "5" default_args))) [].
Proof.
  split; reflexivity.
Qed.

(* ------------------------------------------------------------------ *)
(** ** What holds of every configuration [parse_args] returns *)

(** Whenever [parse_args] returns, the target reduction handed to [main]
    is strictly between 0 and 1 in the sense of the parser's own test: the
    default, or the last value given that converted. *)
Theorem returned_target_reduction_in_range stof argv a e :
  parse_args stof argv = returned a e ->
  SFleb (target_reduction a) float_zero = false /\
  SFleb float_one (target_reduction a) = false.
Proof.
  unfold parse_args.
  destruct (while stof (length argv) argv initial) as [s|o] eqn:L.
  - assert (R0 : range_checked initial) by (right; reflexivity).
    pose proof (while_invariant stof argv range_checked
                  (body_range_checked stof argv) _ _ _ R0 L) as R.
    rewrite finish_spec. cbn zeta.
    destruct (truthy (_abort s)) eqn:A; [discriminate|].
    destruct (String.eqb (map_fn (cargs s)) ""); [discriminate|].
    cbn [orb]. intros H. inversion H; subst.
    cbn [target_reduction set_out_fn_full].
    destruct R as [R|R].
    + unfold truthy in A. destruct (Z.eqb_spec (_abort s) 0); [contradiction|discriminate].
    + unfold in_range in R. apply negb_true_iff, orb_false_iff in R. exact R.
  - intros H. subst o. apply while_halt in L. discriminate.
Qed.

Lemma returned_target_reduction_in_range_witness :
  SFleb float_0_9 float_zero = false /\ SFleb float_one float_0_9 = false.
Proof.
  exact (returned_target_reduction_in_range stof_sample ["meshmaker"; "f.map"]
           _ _ eq_refl).
Defined.

(** Whenever [parse_args] returns, an input file was named, the output
    format is one of stl, vtk and vtp, and the output file name is the prefix,
    a dot and the format. *)
Theorem returned_args_well_formed stof argv a e :
  parse_args stof argv = returned a e ->
  map_fn a <> "" /\
  writer_of (out_format a) <> None /\
  out_fn_full a = out_fn a ++ "." ++ out_format a.
Proof.
  intros P. pose proof (returned_format_known stof argv a e P) as K.
  revert P. unfold parse_args.
  destruct (while stof (length argv) argv initial) as [s|o] eqn:L.
  - rewrite finish_spec. cbn zeta.
    destruct (truthy (_abort s)); [discriminate|].
    destruct (String.eqb (map_fn (cargs s)) "") eqn:M; [discriminate|].
    cbn [orb]. intros H. inversion H; subst.
    cbn [map_fn out_format out_fn out_fn_full set_out_fn_full] in *.
    apply String.eqb_neq in M. auto.
  - intros H. subst o. apply while_halt in L. discriminate.
Qed.

Lemma returned_args_well_formed_witness :
  "f.map" <> "" /\
  writer_of "stl" <> None /\
  "mesh.stl" = "mesh" ++ "." ++ "stl".
Proof.
  exact (returned_args_well_formed stof_sample
           ["meshmaker"; "-o"; "mesh"; "--stl"; "f.map"] _ _ eq_refl).
Defined.

(** In the vtp branch the header type in force when [Write] is called is
    UInt32 whatever [uint64] holds: [SetHeaderTypeToUInt32] is the call made
    just before [Write], after any call of [SetHeaderTypeToUInt64]. *)
Theorem vtp_header_always_uint32 w a :
  out_format a = "vtp" ->
  header_type (calls_of w a) = Some SetHeaderTypeToUInt32 /\
  firstn 2 (rev (calls_of w a)) =
    [(writer vtkXMLPolyDataWriter, Write);
     (writer vtkXMLPolyDataWriter, SetHeaderTypeToUInt32)].
Proof.
  intros F. unfold calls_of, main, write_vtp, call_Write, when. rewrite F.
  cbn [String.eqb Ascii.eqb Bool.eqb].
  destruct (truthy (verbose a)), (truthy (decimate a)), (truthy (smooth a)),
    (truthy (ascii a)), (truthy (int32 a)), (truthy (uint64 a));
    vm_compute; split; reflexivity.
Qed.

Lemma vtp_header_always_uint32_witness :
  header_type (calls_of 1 (set_uint64 1 (set_map_fn "f.map" default_args))) =
    Some SetHeaderTypeToUInt32.
Proof.
  exact (proj1 (vtp_header_always_uint32 1
                  (set_uint64 1 (set_map_fn "f.map" default_args)) eq_refl)).
Defined.

(** A malformed value of [-c] or [-t] is caught: the exception is reported
    on [cerr], the cursor moves past the value, and [parse_args] will not
    return. *)
Theorem malformed_float_rejected stof argv s tok v e :
  reaches stof argv s ->
  nth_error argv (i s) = Some tok ->
  opt tok "-c" "--clevel" = true \/ opt tok "-t" "--target-reduction" = true ->
  nth_error argv (i s + 1) = Some v ->
  stof v = Throw e ->
  (exists s', body stof argv tok s = Next s' /\ i s' = (i s + 2)%nat) /\
  In (exception_caught e) (stderr (parse_args stof argv)) /\
  is_returned (parse_args stof argv) = false.
Proof.
  intros R E O V F.
  assert (B : exists s', body stof argv tok s = Next s' /\ i s' = (i s + 2)%nat /\
                         _abort s' <> 0 /\ In (exception_caught e) (cerr s')).
  { destruct O as [O|O]; apply opt_inv in O; destruct O; subst tok; unfold body;
      cbn [opt String.eqb Ascii.eqb Bool.eqb orb]; rewrite V, F;
      try (cbn [flag_abort report cargs];
           destruct (SFleb (target_reduction (cargs s)) float_zero
                     || SFleb float_one (target_reduction (cargs s))));
      eexists; (split; [reflexivity|]); cbn; repeat split; try discriminate;
      rewrite ?in_app_iff; cbn; tauto. }
  destruct B as [s' [B [I [A Hin]]]].
  split; [now exists s'|].
  pose proof (reaches_next stof argv s tok s' R E B) as R'.
  destruct (parse_args_doomed stof argv _ s' R' A Hin). auto.
Qed.

Lemma malformed_float_rejected_witness :
  In (exception_caught (invalid_argument "stof"))
     (stderr (parse_args stof_sample ["meshmaker"; "-c"; "abc"; "f.map"])) /\
  is_returned (parse_args stof_sample ["meshmaker"; "-c"; "abc"; "f.map"]) = false.
Proof.
  exact (proj2 (malformed_float_rejected stof_sample
                  ["meshmaker"; "-c"; "abc"; "f.map"] initial "-c" "abc"
                  (invalid_argument "stof")
                  (reaches_initial _ _) eq_refl (or_introl eq_refl) eq_refl eq_refl)).
Defined.

(* ------------------------------------------------------------------ *)
(** ** Positional arguments *)

Lemma skipn_nth_error {A : Type} (l : list A) : forall n x,
  nth_error l n = Some x -> skipn n l = x :: skipn (S n) l.
Proof.
  induction l as [|y l IH]; intros [|n] x H; simpl in H; try discriminate.
  - now inversion H.
  - simpl. now apply IH.
Qed.

Lemma last_cons {A : Type} (l : list A) : forall x d,
  last (x :: l) d = last l x.
Proof.
  induction l as [|y l IH]; intros x d; [reflexivity|].
  change (last (x :: y :: l) d) with (last (y :: l) d).
  rewrite (IH y d), (IH y x). reflexivity.
Qed.

(** What an iteration does to the cursor and to [map_fn], by the class of
    the token under the cursor, [-i] apart. *)
Lemma body_by_class stof argv tok s s' :
  body stof argv tok s = Next s' ->
  opt tok "-i" "--smooth-iter" = false ->
  (takes_value tok = true /\ nth_error argv (i s + 1) <> None /\
   i s' = (i s + 2)%nat /\ map_fn (cargs s') = map_fn (cargs s)) \/
  (takes_value tok = false /\ is_flag tok = true /\
   i s' = (i s + 1)%nat /\ map_fn (cargs s') = map_fn (cargs s)) \/
  (recognized tok = false /\
   i s' = (i s + 1)%nat /\ map_fn (cargs s') = tok).
Proof.
  intros H NI.
  destruct (recognized tok) eqn:R.
  - unfold recognized, takes_value, is_flag, opt in R. unfold opt in NI.
    repeat match type of R with
      | _ || _ = true => apply orb_true_iff in R; destruct R as [R|R]
      end;
      apply String.eqb_eq in R; subst tok; try discriminate NI;
      unfold body in H; cbn [opt String.eqb Ascii.eqb Bool.eqb orb] in H;
      repeat match type of H with
        | context [match nth_error ?l ?n with _ => _ end] =>
            destruct (nth_error l n) eqn:?
        | context [match stof ?v with _ => _ end] => destruct (stof v) eqn:?
        | context [if ?c then _ else _] => destruct c eqn:?
        end;
      inversion H; subst; clear H;
      solve [ left; repeat split; cbn; congruence
            | right; left; repeat split; cbn; congruence ].
  - right. right. rewrite (body_positional stof argv tok s R) in H.
    inversion H; subst. auto.
Qed.

(** Without [-i], when the loop is left the input file name is the last
    positional token from the cursor on, or what it was when there is none. *)
Lemma while_positionals stof argv :
  ~ In "-i" argv -> ~ In "--smooth-iter" argv ->
  forall fuel s s',
  (length argv <= fuel + i s)%nat ->
  while stof fuel argv s = Next s' ->
  map_fn (cargs s') = last (positionals (skipn (i s) argv)) (map_fn (cargs s)).
Proof.
  intros N1 N2.
  assert (End : forall s, (length argv <= i s)%nat ->
            map_fn (cargs s) = last (positionals (skipn (i s) argv)) (map_fn (cargs s))).
  { intros s L. now rewrite skipn_all2. }
  induction fuel as [|f IH]; intros s s' Hf H; simpl in H.
  - inversion H; subst. apply End. lia.
  - destruct (nth_error argv (i s)) as [tok|] eqn:E.
    + destruct (body stof argv tok s) as [s1|o] eqn:B; [|discriminate].
      assert (NI : opt tok "-i" "--smooth-iter" = false).
      { destruct (opt tok "-i" "--smooth-iter") eqn:O; [|reflexivity].
        apply nth_error_In in E. apply opt_inv in O.
        destruct O; subst tok; contradiction. }
      pose proof (body_advances stof argv tok s s1 B) as Adv.
      rewrite (IH s1 s') by (assumption || lia).
      rewrite (skipn_nth_error argv (i s) tok E).
      destruct (body_by_class stof argv tok s s1 B NI)
        as [[T [V [I M]]] | [[T [Fl [I M]]] | [R [I M]]]].
      * destruct (nth_error argv (i s + 1)) as [v|] eqn:V'; [|contradiction].
        replace (S (i s)) with (i s + 1)%nat by lia.
        rewrite (skipn_nth_error argv (i s + 1) v V').
        cbn [positionals]. rewrite T, I, M.
        replace (S (i s + 1)) with (i s + 2)%nat by lia. reflexivity.
      * cbn [positionals]. rewrite T, Fl, I, M.
        replace (S (i s)) with (i s + 1)%nat by lia. reflexivity.
      * apply orb_false_iff in R. destruct R as [T Fl].
        cbn [positionals]. rewrite T, Fl, I, M, last_cons.
        replace (S (i s)) with (i s + 1)%nat by lia. reflexivity.
    + inversion H; subst. apply End. now apply nth_error_None.
Qed.

(** On a command line without [-i], when [parse_args] returns the input
    file is the last of the positional tokens: the tokens after the program
    name that are neither a recognized option nor the value following
    [-c], [-o] or [-t].  The earlier ones leave no trace. *)
Theorem last_positional_wins stof argv a e :
  ~ In "-i" argv -> ~ In "--smooth-iter" argv ->
  parse_args stof argv = returned a e ->
  map_fn a = last (positionals (skipn 1 argv)) "".
Proof.
  intros N1 N2. unfold parse_args.
  destruct (while stof (length argv) argv initial) as [s|o] eqn:L.
  - assert (Hf : (length argv <= length argv + i initial)%nat) by lia.
    pose proof (while_positionals stof argv N1 N2 _ _ _ Hf L) as P.
    rewrite finish_spec. cbn zeta.
    destruct (truthy (_abort s) || String.eqb (map_fn (cargs s)) ""); [discriminate|].
    intros H. inversion H; subst. exact P.
  - intros H. subst o. apply while_halt in L. discriminate.
Qed.

Lemma last_positional_wins_witness :
  map_fn (set_out_fn_full "out.stl" (set_out_format "stl"
            (set_map_fn "-z" (set_out_fn "out" (set_map_fn "a.map" default_args))))) =
  last (positionals (skipn 1 ["meshmaker"; "a.map"; "-o"; "out"; "-z"; "-S"])) "".
Proof.
  refine (last_positional_wins stof_sample
            ["meshmaker"; "a.map"; "-o"; "out"; "-z"; "-S"] _ [] _ _ eq_refl).
  - simpl. intros H. repeat (destruct H as [H|H]; [discriminate H|]). exact H.
  - simpl. intros H. repeat (destruct H as [H|H]; [discriminate H|]). exact H.
Defined.

(* ------------------------------------------------------------------ *)
(** ** Not a number *)



(* ------------------------------------------------------------------ *)
(** ** What the loop reads *)

(** An iteration looks at [argv] only through the token after the cursor. *)
Lemma body_same_next stof argv argv' tok s :
  nth_error argv (i s + 1) = nth_error argv' (i s + 1) ->
  body stof argv tok s = body stof argv' tok s.
Proof.
  intros E. unfold body. rewrite E. reflexivity.
Qed.

Lemma while_ignores_argv0 stof p q l fuel : forall s,
  (1 <= i s)%nat ->
  while stof fuel (p :: l) s = while stof fuel (q :: l) s.
Proof.
  induction fuel as [|f IH]; intros s H; [reflexivity|].
  simpl. destruct (i s) as [|n] eqn:I; [lia|]. simpl.
  destruct (nth_error l n) as [tok|]; [|reflexivity].
  assert (B : body stof (p :: l) tok s = body stof (q :: l) tok s).
  { apply body_same_next. rewrite I, Nat.add_1_r. reflexivity. }
  rewrite <- B.
  destruct (body stof (p :: l) tok s) as [s'|o] eqn:B'; [|reflexivity].
  apply IH. apply body_advances in B'. lia.
Qed.

(** The program name [argv[0]] is never read: two command lines that
    differ in it alone are parsed alike. *)
Theorem parse_args_ignores_argv0 stof p q l :
  parse_args stof (p :: l) = parse_args stof (q :: l).
Proof.
  unfold parse_args. simpl length.
  rewrite (while_ignores_argv0 stof p q l (S (length l)) initial); [reflexivity|].
  simpl. lia.
Qed.

Lemma nth_error_lt {A : Type} (l : list A) n x :
  nth_error l n = Some x -> (n < length l)%nat.
Proof.
  intros H. apply nth_error_Some. rewrite H. discriminate.
Qed.

(** An iteration that goes on leaves the cursor at [argc] at most. *)
Lemma body_in_bounds stof argv tok s s' :
  nth_error argv (i s) = Some tok ->
  body stof argv tok s = Next s' ->
  (i s' <= length argv)%nat.
Proof.
  intros E H. apply nth_error_lt in E.
  body_cases H;
    repeat match goal with
      | V : nth_error _ _ = Some _ |- _ => apply nth_error_lt in V
      end; simpl; lia.
Qed.

(** [reaches] is the least relation closed under the iterations. *)
Lemma reaches_invariant stof argv (P : state -> Prop) :
  P initial ->
  (forall tok s s', P s -> nth_error argv (i s) = Some tok ->
                    body stof argv tok s = Next s' -> P s') ->
  forall s, reaches stof argv s -> P s.
Proof.
  intros P0 Step s R. induction R as [|s tok s' _ IH E B]; [exact P0|].
  now apply (Step tok s).
Qed.

(** The cursor stays between 1 and [argc]: apart from [argv[argc]], read
    as the value of a trailing option, no read leaves [argv]. *)
Theorem cursor_in_bounds stof argv s :
  reaches stof argv s ->
  (1 <= i s <= Nat.max 1 (length argv))%nat.
Proof.
  apply (reaches_invariant stof argv
           (fun s => (1 <= i s <= Nat.max 1 (length argv))%nat)).
  - cbn [i initial]. lia.
  - intros tok s0 s' H E B.
    pose proof (body_advances stof argv tok s0 s' B).
    pose proof (body_in_bounds stof argv tok s0 s' E B). lia.
Qed.

Lemma cursor_in_bounds_witness :
  (1 <= 3 <= Nat.max 1 (length ["meshmaker"; "-o"; "mesh"; "f.map"]))%nat.
Proof.
  apply (cursor_in_bounds stof_sample ["meshmaker"; "-o"; "mesh"; "f.map"]
           (advance 2 (assign (set_out_fn "mesh") initial))).
  apply (reaches_next _ _ initial "-o"); [apply reaches_initial | | ]; reflexivity.
Defined.

(* ------------------------------------------------------------------ *)
(** ** The causes of the abnormal outcomes *)

(** A loop left from inside was left by the iteration of some state it
    arrived at. *)
Lemma while_halt_cause stof argv fuel : forall s0 o,
  reaches stof argv s0 ->
  while stof fuel argv s0 = Halt o ->
  exists s tok, reaches stof argv s /\ nth_error argv (i s) = Some tok /\
                body stof argv tok s = Halt o.
Proof.
  induction fuel as [|f IH]; intros s0 o R H; simpl in H; [discriminate|].
  destruct (nth_error argv (i s0)) as [tok|] eqn:E; [|discriminate].
  destruct (body stof argv tok s0) as [s1|o1] eqn:B.
  - apply (IH s1); [|assumption]. now apply (reaches_next stof argv s0 tok).
  - inversion H; subst. now exists s0, tok.
Qed.

(** The state in which the loop is left is one it arrives at. *)
Lemma while_reaches stof argv fuel : forall s0 s,
  reaches stof argv s0 ->
  while stof fuel argv s0 = Next s ->
  reaches stof argv s.
Proof.
  induction fuel as [|f IH]; intros s0 s R H; simpl in H.
  - now inversion H; subst.
  - destruct (nth_error argv (i s0)) as [tok|] eqn:E; [|now inversion H; subst].
    destruct (body stof argv tok s0) as [s1|o1] eqn:B; [|discriminate].
    apply (IH s1); [|assumption]. now apply (reaches_next stof argv s0 tok).
Qed.

(** [parse_args] ends in [past_end] only when the last token of the
    command line is a value-taking option that the loop comes to. *)
Theorem past_end_cause stof argv e :
  parse_args stof argv = past_end e ->
  exists s tok,
    reaches stof argv s /\ cerr s = e /\
    (i s + 1 = length argv)%nat /\
    nth_error argv (length argv - 1) = Some tok /\
    takes_value tok = true.
Proof.
  unfold parse_args.
  destruct (while stof (length argv) argv initial) as [s0|o] eqn:L.
  - rewrite finish_spec. cbn zeta.
    destruct (truthy (_abort s0) || String.eqb (map_fn (cargs s0)) ""); discriminate.
  - intros H. subst o.
    destruct (while_halt_cause stof argv _ _ _ (reaches_initial _ _) L)
      as [s [tok [R [E B]]]].
    exists s, tok.
    pose proof (nth_error_lt _ _ _ E) as Lt.
    assert (K : cerr s = e /\ nth_error argv (i s + 1) = None /\ takes_value tok = true).
    { unfold takes_value. body_cases B; rewrite ?orb_true_r; auto. }
    destruct K as [K1 [K2 K3]]. apply nth_error_None in K2.
    assert (I : (i s + 1 = length argv)%nat) by lia.
    repeat split; try assumption.
    replace (length argv - 1)%nat with (i s) by lia. exact E.
Qed.

Lemma past_end_cause_witness :
  exists s tok,
    reaches stof_sample ["meshmaker"; "f.map"; "-o"] s /\ cerr s = [] /\
    (i s + 1 = length ["meshmaker"; "f.map"; "-o"])%nat /\
    nth_error ["meshmaker"; "f.map"; "-o"] (length ["meshmaker"; "f.map"; "-o"] - 1)
      = Some tok /\
    takes_value tok = true.
Proof.
  exact (past_end_cause stof_sample ["meshmaker"; "f.map"; "-o"] [] eq_refl).
Defined.

(** [parse_args] ends in [std::terminate] only through a [-i] option whose
    value [stoi] refuses; the exception is the one [stoi] threw. *)
Theorem terminated_cause stof argv ex e :
  parse_args stof argv = terminated ex e ->
  exists s tok v,
    reaches stof argv s /\ cerr s = e /\
    nth_error argv (i s) = Some tok /\
    opt tok "-i" "--smooth-iter" = true /\
    nth_error argv (i s + 1) = Some v /\
    stoi v = Throw ex.
Proof.
  unfold parse_args.
  destruct (while stof (length argv) argv initial) as [s0|o] eqn:L.
  - rewrite finish_spec. cbn zeta.
    destruct (truthy (_abort s0) || String.eqb (map_fn (cargs s0)) ""); discriminate.
  - intros H. subst o.
    destruct (while_halt_cause stof argv _ _ _ (reaches_initial _ _) L)
      as [s [tok [R [E B]]]].
    exists s, tok.
    assert (K : exists v, cerr s = e /\ opt tok "-i" "--smooth-iter" = true /\
                          nth_error argv (i s + 1) = Some v /\ stoi v = Throw ex).
    { body_cases B. eexists. repeat split; eassumption. }
    destruct K as [v [K1 [K2 [K3 K4]]]]. exists v. repeat split; assumption.
Qed.

Lemma terminated_cause_witness :
  exists s tok v,
    reaches stof_sample ["meshmaker"; "-s"; "-i"; "many"] s /\ cerr s = [] /\
    nth_error ["meshmaker"; "-s"; "-i"; "many"] (i s) = Some tok /\
    opt tok "-i" "--smooth-iter" = true /\
    nth_error ["meshmaker"; "-s"; "-i"; "many"] (i s + 1) = Some v /\
    stoi v = Throw (invalid_argument "stoi").
Proof.
  exact (terminated_cause stof_sample ["meshmaker"; "-s"; "-i"; "many"]
           (invalid_argument "stoi") [] eq_refl).
Defined.

(** The usage line differs from every other line the parser prints. *)
Lemma usage_is_not_map_not_specified : [str usage_string] <> map_not_specified.
Proof.
  intros H. vm_compute in H. discriminate H.
Qed.

Lemma body_no_usage stof argv tok s s' :
  no_usage s -> body stof argv tok s = Next s' -> no_usage s'.
Proof.
  unfold no_usage. intros N H.
  body_cases H; cbn [cerr advance assign flag_abort report cargs];
    rewrite ?in_app_iff; cbn [In];
    unfold exception_caught, target_out_of_range; intuition discriminate.
Qed.

(** The usage text is printed only when a help flag is on the command
    line. *)
Theorem usage_only_on_help stof argv :
  In [str usage_string] (stderr (parse_args stof argv)) ->
  In "-h" argv \/ In "--help" argv.
Proof.
  unfold parse_args.
  destruct (while stof (length argv) argv initial) as [s0|o] eqn:L.
  - assert (N0 : no_usage initial) by (intros []).
    pose proof (while_invariant stof argv no_usage (body_no_usage stof argv)
                  _ _ _ N0 L) as N.
    rewrite finish_spec. cbn zeta. intros H. exfalso.
    assert (H' : In [str usage_string]
                    (cerr s0 ++ (if String.eqb (map_fn (cargs s0)) ""
                                 then [map_not_specified] else []) ++
                     (if (uint64 (cargs s0) =? 1) &&
                         negb (String.eqb (out_format (cargs s0)) "vtp")
                      then [uint64_warning (out_format (cargs s0))] else []))%list).
    { destruct (truthy (_abort s0) || String.eqb (map_fn (cargs s0)) ""); exact H. }
    clear H. rewrite !in_app_iff in H'. destruct H' as [H|[H|H]].
    + now apply N.
    + destruct (String.eqb (map_fn (cargs s0)) ""); [|destruct H].
      destruct H as [H|[]]. symmetry in H. now apply usage_is_not_map_not_specified.
    + destruct ((uint64 (cargs s0) =? 1) &&
                negb (String.eqb (out_format (cargs s0)) "vtp")); [|destruct H].
      destruct H as [H|[]]. discriminate H.
  - destruct (while_halt_cause stof argv _ _ _ (reaches_initial _ _) L)
      as [s [tok [R [E B]]]].
    assert (N : no_usage s).
    { apply (reaches_invariant stof argv no_usage); [intros [] | | exact R].
      intros t s1 s2 N1 _ B1. now apply (body_no_usage stof argv t s1). }
    intros H.
    assert (K : opt tok "-h" "--help" = true \/ stderr o = cerr s).
    { body_cases B; auto. }
    destruct K as [K|K].
    + apply nth_error_In in E. apply opt_inv in K. destruct K; subst tok; auto.
    + rewrite K in H. exfalso. now apply N.
Qed.

Lemma usage_only_on_help_witness :
  In "-h" ["meshmaker"; "-h"] \/ In "--help" ["meshmaker"; "-h"].
Proof.
  apply (usage_only_on_help stof_sample ["meshmaker"; "-h"]).
  left. reflexivity.
Defined.

(* ------------------------------------------------------------------ *)
(** ** Errors and what is said about them *)

Lemma body_abort_explained stof argv tok s s' :
  abort_explained s -> body stof argv tok s = Next s' -> abort_explained s'.
Proof.
  unfold abort_explained. intros A H.
  body_cases H; cbn [cerr _abort advance assign flag_abort report cargs];
    solve [ exact A
          | right; split; [reflexivity|];
            intros X; repeat (apply app_eq_nil in X; destruct X as [X ?]);
            discriminate ].
Qed.

(** When [parse_args] returns it has printed nothing but, possibly, the
    warning about UInt64 headers. *)
Theorem returned_cerr_only_warning stof argv a e :
  parse_args stof argv = returned a e ->
  e = if (uint64 a =? 1) && negb (String.eqb (out_format a) "vtp")
      then [uint64_warning (out_format a)] else [].
Proof.
  unfold parse_args.
  destruct (while stof (length argv) argv initial) as [s|o] eqn:L.
  - assert (A0 : abort_explained initial) by (left; split; reflexivity).
    pose proof (while_invariant stof argv abort_explained
                  (body_abort_explained stof argv) _ _ _ A0 L) as A.
    rewrite finish_spec. cbn zeta.
    destruct (truthy (_abort s)) eqn:T; [discriminate|].
    destruct (String.eqb (map_fn (cargs s)) ""); [discriminate|].
    cbn [orb]. intros H. inversion H; subst. clear H.
    cbn [uint64 out_format set_out_fn_full].
    destruct A as [[_ C]|[A1 _]].
    + rewrite C. reflexivity.
    + rewrite A1 in T. discriminate T.
  - intros H. subst o. apply while_halt in L. discriminate.
Qed.

Lemma returned_cerr_only_warning_witness :
  [uint64_warning "vtk"] =
  if (1 =? 1) && negb (String.eqb "vtk" "vtp") then [uint64_warning "vtk"] else [].
Proof.
  exact (returned_cerr_only_warning stof_sample
           ["meshmaker"; "-V"; "--uint64"; "f.map"] _ _ eq_refl).
Defined.

(** [abort()] is never silent: when [parse_args] ends in [abort()], at
    least one line was written to [cerr]. *)
Theorem abort_never_silent stof argv e :
  parse_args stof argv = aborted e -> e <> [].
Proof.
  unfold parse_args.
  destruct (while stof (length argv) argv initial) as [s|o] eqn:L.
  - assert (A0 : abort_explained initial) by (left; split; reflexivity).
    pose proof (while_invariant stof argv abort_explained
                  (body_abort_explained stof argv) _ _ _ A0 L) as A.
    rewrite finish_spec. cbn zeta.
    destruct (truthy (_abort s)) eqn:T;
      destruct (String.eqb (map_fn (cargs s)) ""); cbn [orb];
      intros H; inversion H; subst; clear H;
      intros X; repeat (apply app_eq_nil in X; destruct X as [X ?]);
      try discriminate.
    destruct A as [[A1 _]|[_ C]]; [rewrite A1 in T; discriminate T | now apply C].
  - intros H. subst o.
    destruct (while_halt_cause stof argv _ _ _ (reaches_initial _ _) L)
      as [s [tok [R [E B]]]].
    body_cases B. unfold print_usage. intros X.
    apply app_eq_nil in X. destruct X. discriminate.
Qed.

Lemma abort_never_silent_witness :
  [map_not_specified] <> [].
Proof.
  exact (abort_never_silent stof_sample ["meshmaker"; "-v"] _ eq_refl).
Defined.

(** What [stoi] returns fits an [int]. *)
Lemma stoi_in_range v n : stoi v = Conv n -> INT_MIN <= n <= INT_MAX.
Proof.
  unfold stoi.
  destruct (match skip_spaces v with
            | String "-"%char r => (true, r)
            | String "+"%char r => (false, r)
            | _ => (false, skip_spaces v)
            end) as [neg s2].
  destruct (starts_with_digit s2); [|discriminate].
  destruct neg.
  - destruct ((INT_MIN <=? - digits s2 0) && (- digits s2 0 <=? INT_MAX)) eqn:E;
      [|discriminate]. intros H. inversion H; subst.
    apply andb_true_iff in E. destruct E as [E1 E2].
    apply Z.leb_le in E1, E2. lia.
  - destruct ((INT_MIN <=? digits s2 0) && (digits s2 0 <=? INT_MAX)) eqn:E;
      [|discriminate]. intros H. inversion H; subst.
    apply andb_true_iff in E. destruct E as [E1 E2].
    apply Z.leb_le in E1, E2. lia.
Qed.

Lemma body_flags_boolean stof argv tok s s' :
  flags_boolean (cargs s) -> body stof argv tok s = Next s' ->
  flags_boolean (cargs s').
Proof.
  unfold flags_boolean. intros F H.
  body_cases H; cbn -[INT_MIN INT_MAX];
    repeat match goal with
      | S : stoi _ = Conv _ |- _ => apply stoi_in_range in S
      end; intuition.
Qed.

(** In every configuration [parse_args] returns, the switches hold 0 or 1
    (so the test [uint64 == 1] of the parser and the tests [if (x)] of [main]
    agree), and the iteration count is an [int], of either sign. *)
Theorem returned_flags_boolean stof argv a e :
  parse_args stof argv = returned a e -> flags_boolean a.
Proof.
  unfold parse_args.
  destruct (while stof (length argv) argv initial) as [s|o] eqn:L.
  - assert (F0 : flags_boolean (cargs initial)).
    { unfold flags_boolean. cbn -[INT_MIN INT_MAX]. unfold INT_MIN, INT_MAX.
      intuition lia. }
    pose proof (while_invariant stof argv (fun s => flags_boolean (cargs s))
                  (body_flags_boolean stof argv) _ _ _ F0 L) as F.
    rewrite finish_spec. cbn zeta.
    destruct (truthy (_abort s) || String.eqb (map_fn (cargs s)) ""); [discriminate|].
    intros H. inversion H; subst. exact F.
  - intros H. subst o. apply while_halt in L. discriminate.
Qed.

Lemma returned_flags_boolean_witness :
  flags_boolean (set_out_fn_full "out.vtp"
                   (set_map_fn "-3" (set_smooth_iter (-3) (set_smooth 1 default_args)))).
Proof.
  exact (returned_flags_boolean stof_sample ["meshmaker"; "-s"; "-i"; "-3"] _ _ eq_refl).
Defined.

(** Without a positional argument (or with an empty one last) there is no
    input file: on a command line without [-i], [parse_args] then ends in
    [abort()] after the line that no input file was specified, unless a help
    flag or a trailing value-taking option ended it before. *)
Theorem no_input_file_aborts stof argv :
  ~ In "-i" argv -> ~ In "--smooth-iter" argv ->
  last (positionals (skipn 1 argv)) "" = "" ->
  (exists e, parse_args stof argv = aborted e /\
             (In map_not_specified e \/ In [str usage_string] e)) \/
  (exists e, parse_args stof argv = past_end e).
Proof.
  intros N1 N2 P. unfold parse_args.
  destruct (while stof (length argv) argv initial) as [s|o] eqn:L.
  - left.
    assert (Hf : (length argv <= length argv + i initial)%nat) by lia.
    pose proof (while_positionals stof argv N1 N2 _ _ _ Hf L) as M.
    change (map_fn (cargs s) = last (positionals (skipn 1 argv)) "") in M.
    rewrite P in M.
    rewrite finish_spec. cbn zeta. rewrite M. cbn [String.eqb].
    rewrite orb_true_r. eexists. split; [reflexivity|].
    left. rewrite !in_app_iff. right. left. now left.
  - destruct (while_halt_cause stof argv _ _ _ (reaches_initial _ _) L)
      as [s [tok [R [E B]]]].
    apply nth_error_In in E.
    assert (NI : opt tok "-i" "--smooth-iter" = false).
    { destruct (opt tok "-i" "--smooth-iter") eqn:O; [|reflexivity].
      apply opt_inv in O. destruct O; subst tok; contradiction. }
    body_cases B; try discriminate NI.
    + right. now eexists.
    + right. now eexists.
    + right. now eexists.
    + left. eexists. split; [reflexivity|]. right.
      unfold print_usage. rewrite in_app_iff. right. now left.
Qed.

Lemma no_input_file_aborts_witness :
  (exists e, parse_args stof_sample ["meshmaker"; "-S"; "-o"; "mesh"] = aborted e /\
             (In map_not_specified e \/ In [str usage_string] e)) \/
  (exists e, parse_args stof_sample ["meshmaker"; "-S"; "-o"; "mesh"] = past_end e).
Proof.
  apply (no_input_file_aborts stof_sample ["meshmaker"; "-S"; "-o"; "mesh"]).
  - simpl. intros H. repeat (destruct H as [H|H]; [discriminate H|]). exact H.
  - simpl. intros H. repeat (destruct H as [H|H]; [discriminate H|]). exact H.
  - reflexivity.
Defined.



(* ------------------------------------------------------------------ *)
(** ** More on the driver *)

(** The tests of [main], split in the order it makes them. *)
Ltac main_split a :=
  destruct (truthy (verbose a)), (truthy (decimate a)), (truthy (smooth a));
  (destruct (String.eqb (out_format a) "stl");
   [ destruct (truthy (ascii a))
   | destruct (String.eqb (out_format a) "vtk");
     [ destruct (truthy (ascii a))
     | destruct (String.eqb (out_format a) "vtp");
       [ destruct (truthy (ascii a)), (truthy (int32 a)), (truthy (uint64 a))
       | ] ] ]).

Ltac main_unfold :=
  unfold calls_of, main, write_stl, write_vtk, write_vtp, call_Write,
    writer_of, when.

(** The first thing [main] does is to name the input file to the reader. *)
Lemma main_calls_start w a :
  hd_error (calls_of w a) = Some (reader, SetFileName (map_fn a)).
Proof.
  main_unfold. main_split a; reflexivity.
Qed.

(** VTK calls are made exactly when [parse_args] returns, and the exit
    status 0 is given exactly then; in every other case the process makes no
    call and does not exit through [main]. *)
Theorem calls_iff_returned stof w argv :
  (run_calls (meshmaker stof w argv) <> [] <->
   is_returned (parse_args stof argv) = true) /\
  (ending (meshmaker stof w argv) = exited 0 <->
   is_returned (parse_args stof argv) = true) /\
  (forall st, ending (meshmaker stof w argv) = exited st -> st = 0).
Proof.
  unfold meshmaker.
  destruct (parse_args stof argv) as [a e| | |] eqn:P; cbn [is_returned];
    try (cbn [run_calls ending];
         split; [split; intros H; [exfalso; now apply H | discriminate H]|];
         split; [split; intros H; discriminate H | intros st H; discriminate H]).
  pose proof (main_calls_start w a) as S. unfold calls_of in S.
  destruct (main_ignores_write_result w a) as [_ [X _]].
  destruct (main w a empty_world) as [st wd]. cbn [fst snd] in *.
  cbn [run_calls ending]. rewrite X. unfold EXIT_SUCCESS.
  repeat split; try reflexivity.
  - intros _ H. rewrite H in S. discriminate S.
  - intros st' H. now inversion H.
Qed.

(** Verbosity changes what is printed and nothing else: the calls are the
    same for every value of [verbose], and a run that is not verbose prints
    nothing on [cout]. *)
Theorem verbose_only_prints w a v :
  calls_of w (set_verbose v a) = calls_of w a /\
  (truthy (verbose a) = false -> cout (snd (main w a empty_world)) = []).
Proof.
  main_unfold.
  cbn [set_verbose verbose map_fn clevel decimate smooth smooth_iter
       target_reduction out_fn_full out_format ascii int32 uint64].
  destruct (truthy v); main_split a; split; intros; try discriminate;
    reflexivity.
Qed.

(** The parameter of a stage that is switched off is not used: the
    iteration count when smoothing is off, the target reduction when
    decimation is off. *)
Theorem disabled_stage_parameters_unused w a n t :
  (truthy (smooth a) = false ->
   main w (set_smooth_iter n a) empty_world = main w a empty_world) /\
  (truthy (decimate a) = false ->
   main w (set_target_reduction t a) empty_world = main w a empty_world).
Proof.
  unfold main, write_stl, write_vtk, write_vtp, call_Write, when.
  cbn [set_smooth_iter set_target_reduction verbose map_fn clevel decimate smooth
       smooth_iter target_reduction out_fn_full out_format ascii int32 uint64].
  split; intros H; rewrite H; reflexivity.
Qed.

(** When smoothing is enabled the smoother reads the triangle filter and is
    given the configured number of iterations; its output goes to the
    decimator when decimation is enabled and to the stripper otherwise. *)
Theorem smoothing_configured w a :
  truthy (smooth a) = true ->
  In (sfilt, SetNumberOfIterations (smooth_iter a)) (calls_of w a) /\
  upstream sfilt (calls_of w a) = Some tfilt /\
  (if truthy (decimate a)
   then upstream dfilt (calls_of w a) = Some sfilt
   else upstream strip (calls_of w a) = Some sfilt).
Proof.
  intros S. main_cases a; try discriminate S; vm_compute; intuition.
Qed.

Lemma smoothing_configured_witness :
  In (sfilt, SetNumberOfIterations 20) (calls_of 1 (set_smooth 1 default_args)).
Proof.
  exact (proj1 (smoothing_configured 1 (set_smooth 1 default_args) eq_refl)).
Defined.

(** One writer only is used, the one of the output format; it is given the
    output file name and is asked to write exactly once.  Text or binary
    output is chosen once, by the [ascii] switch. *)
Theorem single_writer w a k :
  writer_of (out_format a) = Some k ->
  Forall (fun c => c = k) (writers_used (calls_of w a)) /\
  In (writer k, SetFileName (out_fn_full a)) (calls_of w a) /\
  count_Write (calls_of w a) = 1%nat /\
  encodings (calls_of w a) =
    [match k with
     | vtkXMLPolyDataWriter =>
         if truthy (ascii a) then SetDataModeToAscii else SetDataModeToBinary
     | _ =>
         if truthy (ascii a) then SetFileTypeToASCII else SetFileTypeToBinary
     end].
Proof.
  intros K. revert K. main_cases a; intros K; inversion K; subst k;
    vm_compute; repeat split; auto 20.
Qed.

Lemma single_writer_witness :
  count_Write (calls_of 0 (set_out_format "stl" default_args)) = 1%nat.
Proof.
  exact (proj1 (proj2 (proj2
           (single_writer 0 (set_out_format "stl" default_args) vtkSTLWriter eq_refl)))).
Defined.

(** The two width switches belong to the vtp format: with any other format
    [main] does the same whatever [int32] and [uint64] hold. *)
Theorem width_switches_only_vtp w a u u' :
  out_format a <> "vtp" ->
  main w (set_int32 u (set_uint64 u' a)) empty_world = main w a empty_world.
Proof.
  intros N. apply String.eqb_neq in N.
  unfold main, write_stl, write_vtk.
  cbn [set_int32 set_uint64 verbose map_fn clevel decimate smooth smooth_iter
       target_reduction out_fn_full out_format ascii].
  destruct (String.eqb (out_format a) "stl"); [reflexivity|].
  destruct (String.eqb (out_format a) "vtk"); [reflexivity|].
  rewrite N. reflexivity.
Qed.

Lemma width_switches_only_vtp_witness :
  main 1 (set_int32 1 (set_uint64 1 (set_out_format "stl" default_args))) empty_world =
  main 1 (set_out_format "stl" default_args) empty_world.
Proof.
  apply (width_switches_only_vtp 1 (set_out_format "stl" default_args) 1 1).
  discriminate.
Defined.
